(** * IIP2 sweep: a shallow embedding of [lib/linearity_measurement.py]

    The development follows the three source files:
    - [signal_generator.py]      -> [Module SignalGenerator]
    - [lib/oscilloscope.py]      -> [Module Oscilloscope]
    - [lib/linearity_measurement.py] -> [Module LinearityMeasurement]
    preceded by the part of Python and NumPy the measurement code calls
    ([Module Py], [Module NumPy]).

    Numbers.  The program computes in IEEE binary64.  Here a finite float is
    idealised as a real number ([R]) and arithmetic on finite floats is exact;
    the three non-finite results that NumPy produces instead of raising
    (division by zero, logarithm of zero) are kept as explicit values of
    [np_float].  Exceptions are values of [exn]; a computation that raises
    keeps the instrument state it had reached.

    Instruments.  A message written to a VISA session reaches its
    instrument; a query is answered by the next reply the instrument has in
    store, or times out (VisaIOError).  [time.sleep] and the [tqdm] progress
    bar have no effect on the instruments and are not observed. *)

From Stdlib Require Import Reals Lra Lia ZArith String Ascii Bool Arith Zfloor List.
From Stdlib Require Import Permutation.
Import ListNotations.
Local Open Scope R_scope.

(** ** Exceptions and results *)

(** The exceptions the code can raise, followed by the four failures of the
    specification's taxonomy.  No path of the source constructs one of the
    latter four; they are here so that statements can mention them. *)
Inductive exn : Type :=
  | ValueError
  | TypeError
  | ZeroDivisionError
  | IndexError
  | LinAlgError
  | VisaIOError
  | ConfigurationError
  | CaptureError
  | DegenerateFitError
  | PortError.

Inductive result (A : Type) : Type :=
  | Ok (a : A)
  | Err (e : exn).
Arguments Ok {A} a.
Arguments Err {A} e.

Definition rbind {A B : Type} (r : result A) (k : A -> result B) : result B :=
  match r with
  | Ok a => k a
  | Err e => Err e
  end.

Declare Scope result_scope.
Delimit Scope result_scope with res.
Notation "x <-- r ;; k" := (rbind r (fun x => k))
  (at level 61, r at next level, right associativity) : result_scope.

Fixpoint mapR {A B : Type} (f : A -> result B) (l : list A) : result (list B) :=
  match l with
  | [] => Ok []
  | a :: t =>
      match f a with
      | Err e => Err e
      | Ok b => match mapR f t with
                | Err e => Err e
                | Ok bs => Ok (b :: bs)
                end
      end
  end.

(** ** Floating-point values *)

(** A binary64 value: a finite one (idealised as a real) or one of the
    special values. *)
Inductive np_float : Type :=
  | Fin (r : R)
  | PInf
  | NInf
  | NaN.

Definition is_finite (v : np_float) : Prop :=
  match v with
  | Fin _ => True
  | _ => False
  end.

Definition np_neg (v : np_float) : np_float :=
  match v with
  | Fin r => Fin (- r)
  | PInf => NInf
  | NInf => PInf
  | NaN => NaN
  end.

(** Sign of a finite value as IEEE division sees it; an exact zero is taken
    as [+0.0]. *)
Definition nonneg_sign (r : R) : bool :=
  if Rle_dec 0 r then true else false.

Definition inf_of_sign (positive : bool) : np_float :=
  if positive then PInf else NInf.

(** [x / y] on NumPy scalars: never raises, a zero divisor gives an infinity
    or NaN (with a RuntimeWarning, which is not modelled). *)
Definition np_div (x y : np_float) : np_float :=
  match x, y with
  | NaN, _ | _, NaN => NaN
  | Fin a, Fin b =>
      if Req_dec_T b 0 then
        if Req_dec_T a 0 then NaN
        else inf_of_sign (nonneg_sign a)
      else Fin (a / b)
  | Fin _, PInf | Fin _, NInf => Fin 0
  | PInf, Fin b => inf_of_sign (nonneg_sign b)
  | NInf, Fin b => inf_of_sign (negb (nonneg_sign b))
  | _, _ => NaN
  end.

(** [np.log10] on a scalar: [-inf] at zero, NaN below. *)
Definition np_log10 (x : R) : np_float :=
  if Req_dec_T x 0 then NInf
  else if Rlt_dec x 0 then NaN
  else Fin (ln x / ln 10).

(** [c * v] for a finite non-zero scalar [c]. *)
Definition np_scale (c : R) (v : np_float) : np_float :=
  match v with
  | Fin r => Fin (c * r)
  | PInf => inf_of_sign (nonneg_sign c)
  | NInf => inf_of_sign (negb (nonneg_sign c))
  | NaN => NaN
  end.

Fixpoint all_finite (vs : list np_float) : option (list R) :=
  match vs with
  | [] => Some []
  | Fin r :: t =>
      match all_finite t with
      | Some rs => Some (r :: rs)
      | None => None
      end
  | _ :: _ => None
  end.

(** ** Python built-ins used by the source *)

Module Py.

(** [a / b] on Python floats raises on a zero divisor. *)
Definition div (a b : R) : result R :=
  if Req_dec_T b 0 then Err ZeroDivisionError else Ok (a / b).

(** [re.sub(r'.', '', s, count=n)]: deletes the first [n] characters that
    are not a newline. *)
Fixpoint re_sub_dot (n : nat) (s : string) : string :=
  match n, s with
  | O, _ => s
  | _, EmptyString => EmptyString
  | S m, String c t =>
      if Ascii.eqb c "010"%char then String c (re_sub_dot n t)
      else re_sub_dot m t
  end.

(** [s.split(',')]: always at least one item. *)
Fixpoint split_comma_acc (cur : string) (s : string) : list string :=
  match s with
  | EmptyString => [cur]
  | String c t =>
      if Ascii.eqb c ","%char then cur :: split_comma_acc EmptyString t
      else split_comma_acc (cur ++ String c EmptyString)%string t
  end.

Definition split_comma (s : string) : list string :=
  split_comma_acc EmptyString s.

(** *** [float(item)]

    Surrounding white space is dropped, then a decimal literal is read:
    [sign? digits* (. digits* )? ([eE] sign? digits+)?] with at least one
    digit in the mantissa.  These are the literals an instrument sends in
    ASCii format.  Python also accepts digit-separating underscores and the
    words [inf], [infinity] and [nan]; such items are treated here as not
    convertible. *)

Definition is_space (c : ascii) : bool :=
  existsb (Ascii.eqb c)
    [" "%char; "009"%char; "010"%char; "011"%char; "012"%char; "013"%char].

Fixpoint lstrip (s : string) : string :=
  match s with
  | String c t => if is_space c then lstrip t else s
  | EmptyString => s
  end.

Fixpoint rstrip (s : string) : string :=
  match s with
  | EmptyString => EmptyString
  | String c t =>
      match rstrip t with
      | EmptyString => if is_space c then EmptyString else String c EmptyString
      | String _ _ as r => String c r
      end
  end.

Definition strip (s : string) : string := lstrip (rstrip s).

Definition digit_value (c : ascii) : option Z :=
  let n := nat_of_ascii c in
  if ((48 <=? n) && (n <=? 57))%nat then Some (Z.of_nat (n - 48)) else None.

(** Reads a maximal run of digits: accumulated value, digits read, rest. *)
Fixpoint read_digits (acc : Z) (cnt : nat) (s : string) : Z * nat * string :=
  match s with
  | EmptyString => (acc, cnt, s)
  | String c t =>
      match digit_value c with
      | Some d => read_digits (10 * acc + d)%Z (S cnt) t
      | None => (acc, cnt, s)
      end
  end.

Definition read_sign (s : string) : bool * string :=
  match s with
  | String c t =>
      if Ascii.eqb c "-"%char then (true, t)
      else if Ascii.eqb c "+"%char then (false, t)
      else (false, s)
  | EmptyString => (false, s)
  end.

Definition apply_sign (negative : bool) (z : Z) : Z :=
  if negative then (- z)%Z else z.

(** Mantissa as an integer together with the number of fraction digits. *)
Definition read_mantissa (s : string) : option (Z * nat * string) :=
  let '(ip, ni, r1) := read_digits 0 0 s in
  match r1 with
  | String c t =>
      if Ascii.eqb c "."%char then
        let '(m, nf, r2) := read_digits ip 0 t in
        if (ni + nf =? 0)%nat then None else Some (m, nf, r2)
      else if (ni =? 0)%nat then None else Some (ip, O, r1)
  | EmptyString => if (ni =? 0)%nat then None else Some (ip, O, r1)
  end.

Definition read_exponent (s : string) : option Z :=
  match s with
  | EmptyString => Some 0%Z
  | String c t =>
      if Ascii.eqb c "e"%char || Ascii.eqb c "E"%char then
        let '(neg, r1) := read_sign t in
        let '(e, ne, r2) := read_digits 0 0 r1 in
        match r2 with
        | EmptyString => if (ne =? 0)%nat then None else Some (apply_sign neg e)
        | String _ _ => None
        end
      else None
  end.

(** Signed mantissa and decimal exponent of a literal. *)
Definition float_parts (s : string) : option (Z * Z) :=
  let '(neg, r0) := read_sign (strip s) in
  match read_mantissa r0 with
  | None => None
  | Some (m, nf, r1) =>
      match read_exponent r1 with
      | None => None
      | Some e => Some (apply_sign neg m, (e - Z.of_nat nf)%Z)
      end
  end.

Definition float (s : string) : result R :=
  match float_parts s with
  | None => Err ValueError
  | Some (m, e) => Ok (IZR m * powerRZ 10 e)
  end.

End Py.

(** ** The NumPy functions used by the source *)

Module NumPy.

Definition complex : Type := (R * R)%type.

Definition cadd (a b : complex) : complex := (fst a + fst b, snd a + snd b).

(** [np.abs] of a complex number. *)
Definition cabs (z : complex) : R := sqrt (fst z * fst z + snd z * snd z).

Fixpoint sum (l : list R) : R :=
  match l with
  | [] => 0
  | x :: t => x + sum t
  end.

(** *** [np.linspace(start, stop, num)] (endpoint included)

    [y = arange(num) * step + start] with [step = (stop - start) / (num - 1)]
    when [num > 1], and [y = arange(num) * (stop - start) + start]
    otherwise; a negative [num] is a ValueError. *)
Definition linspace (start stop : R) (num : Z) : result (list R) :=
  if (num <? 0)%Z then Err ValueError
  else
    let n := Z.to_nat num in
    let div := (n - 1)%nat in
    let delta := stop - start in
    Ok (map (fun i : nat =>
               if (0 <? div)%nat then INR i * (delta / INR div) + start
               else INR i * delta + start)
            (seq 0 n)).

(** Round half to even, the rounding of [np.rint]. *)
Definition rint (x : R) : Z :=
  let f := Zfloor x in
  let d := x - IZR f in
  if Rlt_dec d (1 / 2) then f
  else if Rlt_dec (1 / 2) d then (f + 1)%Z
  else if Z.even f then f else (f + 1)%Z.

(** [np.round(x, decimals)]: scale, round to the nearest integer, scale
    back. *)
Definition round1 (decimals : nat) (x : R) : R :=
  IZR (rint (x * 10 ^ decimals)) / 10 ^ decimals.

Definition round (xs : list R) (decimals : nat) : list R :=
  map (round1 decimals) xs.

(** *** [np.fft.fft]

    [X_k = sum_n x_n * exp(-2 pi i k n / N)]; an empty input is a
    ValueError. *)
Definition twiddle (N k n : nat) (x : R) : complex :=
  let theta := 2 * PI * INR k * INR n / INR N in
  (x * cos theta, - (x * sin theta)).

Fixpoint dft_sum (N k n : nat) (xs : list R) : complex :=
  match xs with
  | [] => (0, 0)
  | x :: t => cadd (twiddle N k n x) (dft_sum N k (S n) t)
  end.

Definition dft_bin (xs : list R) (k : nat) : complex :=
  dft_sum (length xs) k 0 xs.

Definition fft (xs : list R) : result (list complex) :=
  match xs with
  | [] => Err ValueError
  | _ :: _ => Ok (map (dft_bin xs) (seq 0 (length xs)))
  end.

(** *** [np.fft.fftfreq(n, d)]

    [val = 1.0 / (n * d)] (a Python float division), then the integers
    [0, 1, ..., (n-1)//2, -(n//2), ..., -1] times [val]. *)
Definition fftfreq_int (n k : nat) : Z :=
  if (k <? (n - 1) / 2 + 1)%nat then Z.of_nat k
  else (Z.of_nat k - Z.of_nat n)%Z.

Definition fftfreq (n : nat) (d : R) : result (list R) :=
  (val <-- Py.div 1 (INR n * d) ;;
   Ok (map (fun k => IZR (fftfreq_int n k) * val) (seq 0 n)))%res.

(** *** [np.argmin]: index of the first smallest element *)
Fixpoint argmin_from (best : nat) (bv : R) (i : nat) (xs : list R) : nat :=
  match xs with
  | [] => best
  | x :: t =>
      if Rlt_dec x bv then argmin_from i x (S i) t
      else argmin_from best bv (S i) t
  end.

Definition argmin (xs : list R) : result nat :=
  match xs with
  | [] => Err ValueError
  | x :: t => Ok (argmin_from 0 x 1 t)
  end.

(** [a[i]] for a non-negative index. *)
Definition getitem (a : list R) (i : nat) : result R :=
  match nth_error a i with
  | Some v => Ok v
  | None => Err IndexError
  end.

(** *** [np.polyfit(x, y, 1)] *)

Definition sum_xy (xs ys : list R) : R :=
  sum (map (fun p => fst p * snd p) (combine xs ys)).

Definition sum_sq (xs : list R) : R := sum (map (fun x => x * x) xs).

(** Determinant of the normal equations, [n * Sxx - Sx^2]. *)
Definition normal_det (xs : list R) : R :=
  INR (length xs) * sum_sq xs - sum xs * sum xs.

Definition ols_slope (xs ys : list R) : R :=
  (INR (length xs) * sum_xy xs ys - sum xs * sum ys) / normal_det xs.

Definition ols_offset (xs ys : list R) : R :=
  (sum ys - ols_slope xs ys * sum xs) / INR (length xs).

Section Polyfit.

(** What [numpy.linalg.lstsq] answers when the least-squares problem
    has no unique finite solution (the levels are all equal, or a power
    is not finite): a minimum-norm solution, non-finite coefficients or
    a LinAlgError, depending on LAPACK.  It is left open. *)
Variable lstsq_deficient :
  list R -> list np_float -> result (np_float * np_float).

(** The coefficients, highest power first: [(slope, offset)].  An empty
    [x] and sequences of different lengths are TypeErrors. *)
Definition polyfit1 (xs : list R) (ys : list np_float)
  : result (np_float * np_float) :=
  if (length xs =? 0)%nat then Err TypeError
  else if negb (length xs =? length ys)%nat then Err TypeError
  else
    match all_finite ys with
    | None => lstsq_deficient xs ys
    | Some yr =>
        if Req_dec_T (normal_det xs) 0 then lstsq_deficient xs ys
        else Ok (Fin (ols_slope xs yr), Fin (ols_offset xs yr))
    end.

End Polyfit.

End NumPy.

(** ** Instruments, console and the state monad *)

(** SCPI messages are kept structured: the numeric fields that the source
    formats into the command string stay numbers. *)
Inductive sg_cmd : Type :=
  | OUTP (channel : nat) (on : bool)
  | APPLy (waveform_type : string) (frequency amplitude offset : R).

Inductive osc_cmd : Type :=
  | RUN
  | STOP
  | TIMEBASE_SCALE (scale : R)
  | CHANNEL_SCALE (channel : nat) (scale : R)
  | WAV_SOURCE (channel : nat)
  | WAV_MODE (mode : string)
  | WAV_FORMAT (format : string)
  | WAV_START (start : R)
  | WAV_STOP (stop : R)
  | TRIGGER_EDGE_LEVEL (level : R)
  | TRIGGER_EDGE_SOURCE (channel : nat).

Inductive osc_query : Type :=
  | WAV_DATA
  | OPC.

Inductive osc_msg : Type :=
  | Command (c : osc_cmd)
  | Query (q : osc_query).

Inductive out_line : Type :=
  | OutVoltage (v : R)
  | OutIIP2 (intercept : np_float).

(** The two instruments behind their VISA sessions, and the console.
    Message lists are oldest first.  [osc_replies] is what the oscilloscope
    will answer to the successive queries: [Some s] is a reply, [None] (or
    an exhausted list) is no reply within the session's timeout. *)
Record world : Type := mkWorld {
  sg_sent : list sg_cmd;
  sg_output1 : bool;
  sg_output2 : bool;
  osc_sent : list osc_msg;
  osc_replies : list (option string);
  stdout : list out_line
}.

Definition M (A : Type) : Type := world -> result A * world.

Definition ret {A : Type} (a : A) : M A := fun w => (Ok a, w).

Definition raise {A : Type} (e : exn) : M A := fun w => (Err e, w).

Definition bind {A B : Type} (m : M A) (k : A -> M B) : M B :=
  fun w =>
    match m w with
    | (Ok a, w') => k a w'
    | (Err e, w') => (Err e, w')
    end.

Definition lift {A : Type} (r : result A) : M A := fun w => (r, w).

Declare Scope monad_scope.
Delimit Scope monad_scope with monad.
Notation "x <- m ;; k" := (bind m (fun x => k))
  (at level 61, m at next level, right associativity) : monad_scope.
Notation "m ;; k" := (bind m (fun _ => k))
  (at level 61, right associativity) : monad_scope.
Local Open Scope monad_scope.

(** [time.sleep]: no effect on the instruments or the console. *)
Definition time_sleep (seconds : R) : M unit := ret tt.

(** The console after one more line. *)
Definition printed (l : out_line) (w : world) : world :=
  mkWorld (sg_sent w) (sg_output1 w) (sg_output2 w)
          (osc_sent w) (osc_replies w) (stdout w ++ [l]).

Definition print (l : out_line) : M unit := fun w => (Ok tt, printed l w).

(** Python values a caller can receive as the components of the tuple that
    [measure_iip2] returns. *)
Inductive pyval : Type :=
  | PyNone
  | PyFloat (v : np_float)
  | PyArray (a : list R)
  | PyList (l : list np_float).

Definition pytuple : Type := list pyval.

(** ** [signal_generator.py] *)

Module SignalGenerator.

(** What the generator does with a message it receives. *)
Definition react (c : sg_cmd) (w : world) : world :=
  match c with
  | OUTP 1 on =>
      mkWorld (sg_sent w ++ [c]) on (sg_output2 w)
              (osc_sent w) (osc_replies w) (stdout w)
  | OUTP 2 on =>
      mkWorld (sg_sent w ++ [c]) (sg_output1 w) on
              (osc_sent w) (osc_replies w) (stdout w)
  | _ =>
      mkWorld (sg_sent w ++ [c]) (sg_output1 w) (sg_output2 w)
              (osc_sent w) (osc_replies w) (stdout w)
  end.

(** [self.sg.write(...)] *)
Definition write (c : sg_cmd) : M unit := fun w => (Ok tt, react c w).

Definition enable_output (channel : nat) : M unit :=
  if (channel =? 1)%nat then write (OUTP 1 true)
  else if (channel =? 2)%nat then write (OUTP 2 true)
  else ret tt.

Definition disable_output (channel : nat) : M unit :=
  if (channel =? 1)%nat then write (OUTP 1 false)
  else if (channel =? 2)%nat then write (OUTP 2 false)
  else ret tt.

Definition set_waveform (waveform_type : string)
    (frequency amplitude offset : R) : M unit :=
  write (APPLy waveform_type frequency amplitude offset).

End SignalGenerator.

(** ** [lib/oscilloscope.py] *)

Module Oscilloscope.

(** The oscilloscope after it received a message. *)
Definition received (m : osc_msg) (w : world) : world :=
  mkWorld (sg_sent w) (sg_output1 w) (sg_output2 w)
          (osc_sent w ++ [m]) (osc_replies w) (stdout w).

(** The oscilloscope after its pending reply, if any, was read or timed
    out. *)
Definition answered (w : world) : world :=
  mkWorld (sg_sent w) (sg_output1 w) (sg_output2 w)
          (osc_sent w) (tl (osc_replies w)) (stdout w).

(** [self.scope.write(...)] *)
Definition write (c : osc_cmd) : M unit :=
  fun w => (Ok tt, received (Command c) w).

(** [self.scope.query(...)]: the message is sent, then the next reply is
    read; no reply before the timeout is a VisaIOError. *)
Definition query (q : osc_query) : M string :=
  fun w =>
    match osc_replies w with
    | Some r :: _ => (Ok r, answered (received (Query q) w))
    | None :: _ => (Err VisaIOError, answered (received (Query q) w))
    | [] => (Err VisaIOError, answered (received (Query q) w))
    end.

Definition run : M unit := write RUN.

Definition stop : M unit := write STOP.

Definition set_timebase (scale : R) : M unit := write (TIMEBASE_SCALE scale).

Definition set_channel_scale (channel : nat) (scale : R) : M unit :=
  if (channel =? 1)%nat then write (CHANNEL_SCALE 1 scale)
  else if (channel =? 2)%nat then write (CHANNEL_SCALE 2 scale)
  else ret tt.

Definition set_source_channel (channel : nat) : M unit :=
  write (WAV_SOURCE channel).

Definition set_wav_mode (mode : string) : M unit := write (WAV_MODE mode).

Definition set_wav_format (format : string) : M unit :=
  write (WAV_FORMAT format).

Definition set_wav_start (start : R) : M unit := write (WAV_START start).

Definition set_wav_stop (stop : R) : M unit := write (WAV_STOP stop).

Definition set_trigger_level (level : R) : M unit :=
  write (TRIGGER_EDGE_LEVEL level).

Definition set_trigger_source (channel : nat) : M unit :=
  write (TRIGGER_EDGE_SOURCE channel).

Definition waveform_data : M string := query WAV_DATA.

(** The 11-character block header is removed, the rest is split at the
    commas and every item converted with [float]. *)
Definition parse_waveform (rawData : string) : result (list R) :=
  let data := Py.re_sub_dot 11 rawData in
  mapR Py.float (Py.split_comma data).

Definition get_waveform_data (channel : nat) : M (list R) :=
  stop ;;
  set_source_channel channel ;;
  set_wav_mode "NORMAL" ;;
  set_wav_format "ASCii" ;;
  set_wav_start 1 ;;
  set_wav_stop 1200 ;;
  rawData <- waveform_data ;;
  query OPC ;;
  lift (parse_waveform rawData).

End Oscilloscope.

(** ** [lib/linearity_measurement.py] *)

Module LinearityMeasurement.

(** *** [calculate_second_order_product] *)

Definition calculate_second_order_product
    (waveform_volts : list R) (freq1 freq2 fs : R) : result np_float :=
  (fft <-- NumPy.fft waveform_volts ;;
   d <-- Py.div 1 fs ;;
   freqs <-- NumPy.fftfreq (length waveform_volts) d ;;
   let half := firstn (length fft / 2) fft in
   let fft_magnitude :=
     map (fun z => NumPy.cabs z / INR (length half)) half in
   let fft_freq := firstn (length fft / 2) freqs in
   let f_sum := freq1 + freq2 in
   let f_diff := Rabs (freq1 - freq2) in
   idx_sum <-- NumPy.argmin (map (fun f => Rabs (f - f_sum)) fft_freq) ;;
   idx_diff <-- NumPy.argmin (map (fun f => Rabs (f - f_diff)) fft_freq) ;;
   m_sum <-- NumPy.getitem fft_magnitude idx_sum ;;
   m_diff <-- NumPy.getitem fft_magnitude idx_diff ;;
   let second_order_power_sum := m_sum ^ 2 in
   let second_order_power_diff := m_diff ^ 2 in
   let second_order_power :=
     Rmax second_order_power_sum second_order_power_diff in
   Ok (np_scale 10 (np_log10 second_order_power)))%res.

(** *** [set_oscilloscope] *)

Definition set_oscilloscope (freq amp : R) : M unit :=
  scale <- lift (Py.div 2 freq) ;;
  Oscilloscope.set_timebase scale ;;
  Oscilloscope.set_channel_scale 1 (amp * 20) ;;
  time_sleep (1 / 10) ;;
  Oscilloscope.set_trigger_source 1 ;;
  Oscilloscope.set_trigger_level 0.

(** The first statement of [measure_iip2]:
    [np.round(np.linspace(start_voltage, stop_voltage, num), 5)]. *)
Definition sweep_levels (start_voltage stop_voltage : R) (num : Z)
  : result (list R) :=
  (spaced <-- NumPy.linspace start_voltage stop_voltage num ;;
   Ok (NumPy.round spaced 5))%res.

Section Sweep.

Variable lstsq_deficient :
  list R -> list np_float -> result (np_float * np_float).

(** *** [calculate_intercept] *)

Definition calculate_intercept
    (input_voltages : list R) (products : list np_float)
  : result np_float :=
  (coefficients <-- NumPy.polyfit1 lstsq_deficient input_voltages products ;;
   let intercept := np_div (np_neg (snd coefficients)) (fst coefficients) in
   Ok intercept)%res.

(** *** [measure_iip2] *)

(** The body of the [for] loop, for one level. *)
Definition sweep_step (freq1 freq2 fs : R) (voltage : R) : M np_float :=
  SignalGenerator.set_waveform "SIN" freq1 voltage 0 ;;
  SignalGenerator.enable_output 1 ;;
  set_oscilloscope freq1 voltage ;;
  print (OutVoltage voltage) ;;
  time_sleep 1 ;;
  Oscilloscope.run ;;
  time_sleep 1 ;;
  waveform_volts <- Oscilloscope.get_waveform_data 1 ;;
  time_sleep 1 ;;
  second_order_power <-
    lift (calculate_second_order_product waveform_volts freq1 freq2 fs) ;;
  time_sleep (1 / 10) ;;
  Oscilloscope.stop ;;
  ret second_order_power.

(** The [for] loop; [second_order_products] is the list built so far. *)
Fixpoint sweep_loop (freq1 freq2 fs : R) (input_voltages : list R)
    (second_order_products : list np_float) : M (list np_float) :=
  match input_voltages with
  | [] => ret second_order_products
  | voltage :: rest =>
      second_order_power <- sweep_step freq1 freq2 fs voltage ;;
      sweep_loop freq1 freq2 fs rest
                 (second_order_products ++ [second_order_power])
  end.

Definition measure_iip2 (start_voltage stop_voltage : R) (num : Z)
    (freq1 freq2 fs : R) : M pytuple :=
  input_voltages <- lift (sweep_levels start_voltage stop_voltage num) ;;
  time_sleep 1 ;;
  second_order_products <- sweep_loop freq1 freq2 fs input_voltages [] ;;
  SignalGenerator.disable_output 1 ;;
  (if (1 <? length second_order_products)%nat then
     second_order_intercept <-
       lift (calculate_intercept input_voltages second_order_products) ;;
     print (OutIIP2 second_order_intercept)
   else ret tt) ;;
  ret [PyArray input_voltages; PyList second_order_products].

End Sweep.

End LinearityMeasurement.

(** ** The vocabulary of the specification *)

Module Spec.

(** Frequency of bin [k] of an [N]-point transform: bins are spaced at
    [sample_rate / N]. *)
Definition bin_frequency (N : nat) (fs : R) (k : nat) : R :=
  INR k * fs / INR N.

(** Squared magnitude of bin [k], the magnitude divided by the retained
    length [M]. *)
Definition bin_power (w : list R) (M k : nat) : R :=
  (NumPy.cabs (NumPy.dft_bin w k) / INR M) ^ 2.

(** [k] is a retained bin whose frequency is closest to [target]. *)
Definition nearest_bin (N M : nat) (fs target : R) (k : nat) : Prop :=
  (k < M)%nat /\
  forall j, (j < M)%nat ->
    Rabs (bin_frequency N fs k - target)
    <= Rabs (bin_frequency N fs j - target).


(** Sum of squared residuals of the line [a * x + b]. *)
Definition ssr (xs ys : list R) (a b : R) : R :=
  NumPy.sum (map (fun p => (snd p - (a * fst p + b)) ^ 2) (combine xs ys)).

(** [(a, b)] are ordinary-least-squares coefficients. *)
Definition is_ols (xs ys : list R) (a b : R) : Prop :=
  forall a' b', ssr xs ys a b <= ssr xs ys a' b'.

(** What a change [(da, db)] of the coefficients adds to the residual at
    a least-squares solution. *)
Definition shift_form (l : list R) (da db : R) : R :=
  NumPy.sum (map (fun x => (da * x + db) ^ 2) l).

(** Two of the levels differ. *)
Definition levels_vary (xs : list R) : Prop :=
  exists x x', In x xs /\ In x' xs /\ x <> x'.



(** The [i]-th of [n] levels linearly spaced from [start] to [stop]. *)
Definition spaced_level (start stop : R) (n i : nat) : R :=
  start + INR i * ((stop - start) / INR (n - 1)).

(** The Source Port's output is off. *)
Definition output_off (w : world) : Prop := sg_output1 w = false.

Definition output_on (w : world) : Prop := sg_output1 w = true.


(** One of the components of the returned tuple is the scalar [v]. *)
Definition includes_scalar (t : pytuple) (v : np_float) : Prop :=
  In (PyFloat v) t.

(** The generator's side of the world. *)
Definition sg_state (w : world) : list sg_cmd * bool * bool :=
  (sg_sent w, sg_output1 w, sg_output2 w).

(** A computation that never talks to the generator. *)
Definition keeps_generator {A : Type} (m : M A) : Prop :=
  forall w, sg_state (snd (m w)) = sg_state w.

End Spec.

(** ** Concrete runs *)

Module Examples.

(** LAPACK refusing every deficient problem. *)
Definition no_lstsq (xs : list R) (ys : list np_float)
  : result (np_float * np_float) := Err LinAlgError.

(** A reply to [:WAVeform:DATA?]: the 11-character header, then two
    samples. *)
Definition two_samples : string := "#90000000031,0".

Definition opc_reply : string := "1".

(** Both instruments idle, the oscilloscope answering [replies]. *)
Definition idle (replies : list (option string)) : world :=
  mkWorld [] false false [] replies [].

(** The oscilloscope never answers. *)
Definition silent_scope : world := idle [].

(** The oscilloscope answers the first capture, times out on the second
    and would answer the third. *)
Definition second_capture_fails : world :=
  idle [Some two_samples; Some opc_reply;
        None;
        Some two_samples; Some opc_reply].

(** The oscilloscope answers two captures. *)
Definition two_captures : world :=
  idle [Some two_samples; Some opc_reply; Some two_samples; Some opc_reply].

(** The tones and the sample rate that [measure_iip2] defaults to. *)
Definition freq1 : R := 1000000.
Definition freq2 : R := 1010000.
Definition fs : R := 50000.

End Examples.

(** ** Vocabulary of the further properties *)

Module Further.

(** Decibels that an amplitude gain [c] adds to a power reading. *)
Definition gain_db (c : R) : R := 20 * (ln (Rabs c) / ln 10).

(** A reading moved by [d] decibels; a non-finite reading stays as it is. *)
Definition shift_db (d : R) (v : np_float) : np_float :=
  match v with
  | Fin p => Fin (p + d)
  | PInf => PInf
  | NInf => NInf
  | NaN => NaN
  end.

(** The two messages a step sends to the generator. *)
Definition step_commands (f1 v : R) : list sg_cmd :=
  [APPLy "SIN" f1 v 0; OUTP 1 true].

(** The four messages [set_oscilloscope] sends. *)
Definition scope_settings (freq amp : R) : list osc_msg :=
  [Command (TIMEBASE_SCALE (2 / freq)); Command (CHANNEL_SCALE 1 (amp * 20));
   Command (TRIGGER_EDGE_SOURCE 1); Command (TRIGGER_EDGE_LEVEL 0)].

(** The messages [get_waveform_data] sends up to its data query. *)
Definition capture_request (channel : nat) : list osc_msg :=
  [Command STOP; Command (WAV_SOURCE channel); Command (WAV_MODE "NORMAL");
   Command (WAV_FORMAT "ASCii"); Command (WAV_START 1);
   Command (WAV_STOP 1200); Query WAV_DATA].

(** Everything a completed step sends to the oscilloscope. *)
Definition step_messages (f1 v : R) : list osc_msg :=
  scope_settings f1 v ++ [Command RUN] ++ capture_request 1
  ++ [Query OPC; Command STOP].

Fixpoint count_commas (s : string) : nat :=
  match s with
  | EmptyString => 0
  | String c t =>
      if Ascii.eqb c ","%char then S (count_commas t) else count_commas t
  end.

Fixpoint no_newline (s : string) : bool :=
  match s with
  | EmptyString => true
  | String c t => negb (Ascii.eqb c "010"%char) && no_newline t
  end.

(** Only white space. *)
Fixpoint blank (s : string) : bool :=
  match s with
  | EmptyString => true
  | String c t => Py.is_space c && blank t
  end.

(** The oscilloscope after it received the messages [ms], in order. *)
Definition received_all (ms : list osc_msg) (w : world) : world :=
  fold_left (fun w' m => Oscilloscope.received m w') ms w.

(** The state of the generator's output [channel] (1 or 2). *)
Definition sg_output (channel : nat) (w : world) : bool :=
  if (channel =? 1)%nat then sg_output1 w else sg_output2 w.

(** The channel that is not [channel]. *)
Definition other_channel (channel : nat) : nat :=
  if (channel =? 1)%nat then 2%nat else 1%nat.

(** The levels re-expressed in another unit and origin. *)
Definition affine (c d : R) (xs : list R) : list R :=
  map (fun x => c * x + d) xs.

(** The powers of the points that lie on the line [a * x + b]. *)
Definition on_line (a b : R) (xs : list R) : list R :=
  map (fun x => a * x + b) xs.

(** Lines 13-15 of the source, [calculate_intercept], with the fitting
    routine as a parameter: whatever [np.polyfit] computes, the two
    statements after it are the same. *)
Definition calculate_intercept_with
    (polyfit : list R -> list np_float -> result (np_float * np_float))
    (input_voltages : list R) (products : list np_float)
  : result np_float :=
  (coefficients <-- polyfit input_voltages products ;;
   let intercept := np_div (np_neg (snd coefficients)) (fst coefficients) in
   Ok intercept)%res.

End Further.

(** * Proofs *)

Import NumPy LinearityMeasurement Spec.
Local Open Scope R_scope.

(** ** Building blocks: results *)

Lemma py_div_ok (a b : R) : b <> 0 -> Py.div a b = Ok (a / b).
Proof.
  intros Hb. unfold Py.div. destruct (Req_dec_T b 0); [contradiction | reflexivity].
Qed.

Lemma py_div_zero (a : R) : Py.div a 0 = Err ZeroDivisionError.
Proof.
  unfold Py.div. destruct (Req_dec_T 0 0) as [_ | H]; [reflexivity | now elim H].
Qed.

(** ** Building blocks: [argmin] *)

(** Loop invariant of [argmin_from] over the list [pre ++ xs]: [best] is the
    first index of a smallest element of [pre]. *)
Lemma argmin_from_spec (l : list R) :
  forall xs pre best,
    l = pre ++ xs ->
    (best < length pre)%nat ->
    (forall j, (j < length pre)%nat -> nth best l 0 <= nth j l 0) ->
    (forall j, (j < best)%nat -> nth best l 0 < nth j l 0) ->
    let r := argmin_from best (nth best l 0) (length pre) xs in
    (r < length l)%nat /\
    (forall j, (j < length l)%nat -> nth r l 0 <= nth j l 0) /\
    (forall j, (j < r)%nat -> nth r l 0 < nth j l 0).
Proof.
  induction xs as [| x t IH]; intros pre best Hl Hb Hmin Hfirst; simpl.
  - rewrite app_nil_r in Hl. subst pre. auto.
  - assert (Hx : nth (length pre) l 0 = x).
    { subst l. rewrite app_nth2, Nat.sub_diag by lia. reflexivity. }
    assert (Hl' : l = (pre ++ [x]) ++ t) by (rewrite <- app_assoc; exact Hl).
    assert (Hlen : length (pre ++ [x]) = S (length pre))
      by (rewrite length_app; simpl; lia).
    destruct (Rlt_dec x (nth best l 0)) as [Hlt | Hge].
    + rewrite <- Hx. rewrite <- Hlen.
      apply (IH (pre ++ [x]) (length pre) Hl').
      * lia.
      * intros j Hj. rewrite Hlen in Hj.
        destruct (Nat.eq_dec j (length pre)) as [-> | Hne]; [lra |].
        rewrite Hx. specialize (Hmin j ltac:(lia)). lra.
      * intros j Hj. rewrite Hx. specialize (Hmin j Hj). lra.
    + rewrite <- Hlen.
      apply (IH (pre ++ [x]) best Hl').
      * lia.
      * intros j Hj. rewrite Hlen in Hj.
        destruct (Nat.eq_dec j (length pre)) as [-> | Hne].
        -- rewrite Hx. lra.
        -- apply Hmin. lia.
      * exact Hfirst.
Qed.

Lemma argmin_spec (l : list R) :
  l <> [] ->
  exists r,
    argmin l = Ok r /\
    (r < length l)%nat /\
    (forall j, (j < length l)%nat -> nth r l 0 <= nth j l 0) /\
    (forall j, (j < r)%nat -> nth r l 0 < nth j l 0).
Proof.
  destruct l as [| x t]; [congruence | intros _].
  exists (argmin_from 0 x 1 t). split; [reflexivity |].
  apply (argmin_from_spec (x :: t) t [x] 0%nat); simpl; try reflexivity; try lia.
  intros j Hj. assert (j = 0%nat) by lia. subst j. lra.
Qed.

Lemma argmin_nil : argmin [] = Err ValueError.
Proof. reflexivity. Qed.

(** ** Building blocks: the spectrum *)

Lemma nth_map_seq {A : Type} (f : nat -> A) (m j : nat) (d : A) :
  (j < m)%nat -> nth j (map f (seq 0 m)) d = f j.
Proof.
  intros Hj.
  rewrite (nth_indep _ d (f 0%nat)) by (rewrite length_map, length_seq; exact Hj).
  rewrite map_nth, seq_nth by exact Hj. reflexivity.
Qed.

Lemma nth_error_map_seq {A : Type} (f : nat -> A) (m j : nat) :
  (j < m)%nat -> nth_error (map f (seq 0 m)) j = Some (f j).
Proof.
  intros Hj. rewrite (nth_error_nth' _ (f 0%nat))
    by (rewrite length_map, length_seq; exact Hj).
  now rewrite nth_map_seq.
Qed.

Lemma firstn_seq_le (m : nat) :
  forall s n, (m <= n)%nat -> firstn m (seq s n) = seq s m.
Proof.
  induction m as [| m IH]; intros s n Hm; [reflexivity |].
  destruct n as [| n]; [lia |]. simpl. f_equal. apply IH. lia.
Qed.

Lemma firstn_map_seq {A : Type} (f : nat -> A) (n m : nat) :
  (m <= n)%nat -> firstn m (map f (seq 0 n)) = map f (seq 0 m).
Proof.
  intros Hm. rewrite firstn_map. now rewrite firstn_seq_le.
Qed.

Lemma fft_ok (w : list R) :
  w <> [] -> fft w = Ok (map (dft_bin w) (seq 0 (length w))).
Proof. destruct w; [congruence | reflexivity]. Qed.

Lemma fftfreq_ok (n : nat) (d : R) :
  (0 < n)%nat -> d <> 0 ->
  fftfreq n d =
  Ok (map (fun k => IZR (fftfreq_int n k) * (1 / (INR n * d))) (seq 0 n)).
Proof.
  intros Hn Hd. unfold fftfreq. rewrite py_div_ok; [reflexivity |].
  apply Rmult_integral_contrapositive_currified; [| exact Hd].
  apply not_0_INR. lia.
Qed.

(** In the retained half the bins are the non-negative ones of [fftfreq],
    spaced at [fs / N]. *)
Lemma retained_frequency (N k : nat) (fs : R) :
  (k < N / 2)%nat -> fs <> 0 ->
  IZR (fftfreq_int N k) * (1 / (INR N * (1 / fs))) = bin_frequency N fs k.
Proof.
  intros Hk Hfs.
  assert (HN : (2 <= N)%nat).
  { destruct N as [| [| N']]; [simpl in Hk; lia | simpl in Hk; lia | lia]. }
  assert (Hhalf : (N / 2 <= (N - 1) / 2 + 1)%nat).
  { pose proof (Nat.div_mod_eq N 2) as HdN.
    pose proof (Nat.mod_upper_bound N 2 ltac:(lia)).
    pose proof (Nat.div_mod_eq (N - 1) 2) as HdN1.
    pose proof (Nat.mod_upper_bound (N - 1) 2 ltac:(lia)).
    lia. }
  unfold fftfreq_int, bin_frequency.
  replace (k <? (N - 1) / 2 + 1)%nat with true
    by (symmetry; apply Nat.ltb_lt; lia).
  rewrite <- INR_IZR_INZ.
  assert (INR N <> 0) by (apply not_0_INR; lia).
  field. split; assumption.
Qed.

Lemma retained_frequencies (N : nat) (fs : R) :
  fs <> 0 ->
  map (fun k => IZR (fftfreq_int N k) * (1 / (INR N * (1 / fs)))) (seq 0 (N / 2))
  = map (bin_frequency N fs) (seq 0 (N / 2)).
Proof.
  intros Hfs. apply map_ext_in. intros k Hk. apply in_seq in Hk.
  apply retained_frequency; [lia | exact Hfs].
Qed.


(** The value [calculate_second_order_product] returns on a waveform of at
    least two samples: the bins it reads are the first nearest ones. *)
Lemma calculate_second_order_product_value (w : list R) (f1 f2 fs : R) :
  (2 <= length w)%nat -> fs <> 0 ->
  let N := length w in
  let M := (N / 2)%nat in
  exists k_sum k_diff,
    nearest_bin N M fs (f1 + f2) k_sum /\
    (forall j, (j < k_sum)%nat ->
       Rabs (bin_frequency N fs k_sum - (f1 + f2))
       < Rabs (bin_frequency N fs j - (f1 + f2))) /\
    nearest_bin N M fs (Rabs (f1 - f2)) k_diff /\
    (forall j, (j < k_diff)%nat ->
       Rabs (bin_frequency N fs k_diff - Rabs (f1 - f2))
       < Rabs (bin_frequency N fs j - Rabs (f1 - f2))) /\
    calculate_second_order_product w f1 f2 fs
    = Ok (np_scale 10
            (np_log10 (Rmax (bin_power w M k_sum) (bin_power w M k_diff)))).
Proof.
  intros Hlen Hfs N M.
  assert (HM : (1 <= M)%nat).
  { subst M N. change 1%nat with (2 / 2)%nat.
    apply Nat.Div0.div_le_mono. exact Hlen. }
  assert (HMN : (M <= N)%nat).
  { subst M. apply Nat.Div0.div_le_upper_bound. lia. }
  assert (Hw : w <> []) by (destruct w; [simpl in Hlen; lia | congruence]).
  assert (Hd : 1 / fs <> 0).
  { unfold Rdiv. rewrite Rmult_1_l. now apply Rinv_neq_0_compat. }
  unfold calculate_second_order_product.
  rewrite (fft_ok w Hw). cbn [rbind].
  rewrite (py_div_ok 1 fs Hfs). cbn [rbind].
  rewrite (fftfreq_ok (length w) (1 / fs)) by (assumption || lia). cbn [rbind].
  rewrite !length_map, !length_seq. fold N. fold M.
  rewrite !firstn_map_seq by exact HMN.
  rewrite !length_map, !length_seq.
  subst M N. rewrite (retained_frequencies (length w) fs Hfs).
  set (N := length w) in *. set (M := (N / 2)%nat) in *.
  set (freqs := map (bin_frequency N fs) (seq 0 M)).
  assert (Hfl : length freqs = M) by (unfold freqs; now rewrite length_map, length_seq).
  assert (Hnth : forall t j, (j < M)%nat ->
             nth j (map (fun f => Rabs (f - t)) freqs) 0
             = Rabs (bin_frequency N fs j - t)).
  { intros t j Hj. unfold freqs. rewrite map_map. now rewrite nth_map_seq. }
  assert (Hne : forall t, map (fun f => Rabs (f - t)) freqs <> []).
  { intros t Hnil. apply (f_equal (@length R)) in Hnil.
    rewrite length_map, Hfl in Hnil. simpl in Hnil. lia. }
  destruct (argmin_spec _ (Hne (f1 + f2))) as (ks & Eks & Hks & Hmin_s & Hfst_s).
  destruct (argmin_spec _ (Hne (Rabs (f1 - f2)))) as (kd & Ekd & Hkd & Hmin_d & Hfst_d).
  rewrite length_map, Hfl in Hks, Hkd, Hmin_s, Hmin_d.
  exists ks, kd.
  split; [split; [exact Hks |] |].
  { intros j Hj. rewrite <- !Hnth by assumption. now apply Hmin_s. }
  split.
  { intros j Hj. rewrite <- !Hnth by lia. now apply Hfst_s. }
  split; [split; [exact Hkd |] |].
  { intros j Hj. rewrite <- !Hnth by assumption. now apply Hmin_d. }
  split.
  { intros j Hj. rewrite <- !Hnth by lia. now apply Hfst_d. }
  rewrite Eks, Ekd. cbn [rbind].
  unfold getitem. rewrite map_map, !nth_error_map_seq by assumption.
  reflexivity.
Qed.

Lemma calculate_second_order_product_empty (f1 f2 fs : R) :
  calculate_second_order_product [] f1 f2 fs = Err ValueError.
Proof. reflexivity. Qed.

(** One sample: the transform succeeds, the retained half is empty and
    [argmin] has nothing to choose from. *)
Lemma calculate_second_order_product_single (x f1 f2 fs : R) :
  calculate_second_order_product [x] f1 f2 fs
  = if Req_dec_T fs 0 then Err ZeroDivisionError else Err ValueError.
Proof.
  unfold calculate_second_order_product. cbn [fft rbind].
  unfold Py.div at 1. destruct (Req_dec_T fs 0) as [Hz | Hnz]; [reflexivity |].
  cbn [rbind]. rewrite fftfreq_ok.
  - reflexivity.
  - simpl. lia.
  - unfold Rdiv. rewrite Rmult_1_l. now apply Rinv_neq_0_compat.
Qed.

Lemma calculate_second_order_product_needs_two (w : list R) (f1 f2 fs : R)
    (v : np_float) :
  calculate_second_order_product w f1 f2 fs = Ok v -> (2 <= length w)%nat.
Proof.
  destruct w as [| x [| y t]]; intros H.
  - rewrite calculate_second_order_product_empty in H. discriminate.
  - rewrite calculate_second_order_product_single in H.
    destruct (Req_dec_T fs 0); discriminate.
  - simpl. lia.
Qed.

Lemma calculate_second_order_product_ok (w : list R) (f1 f2 fs : R) :
  (2 <= length w)%nat -> fs <> 0 ->
  exists v, calculate_second_order_product w f1 f2 fs = Ok v.
Proof.
  intros Hlen Hfs.
  destruct (calculate_second_order_product_value w f1 f2 fs Hlen Hfs)
    as (ks & kd & _ & _ & _ & _ & E).
  eexists. exact E.
Qed.

(** ** Building blocks: least squares *)

Lemma sum_squares_nonneg (f : R -> R) (l : list R) :
  0 <= sum (map (fun x => f x ^ 2) l).
Proof.
  induction l as [| x t IH]; simpl; [lra |].
  pose proof (pow2_ge_0 (f x)). simpl in *. lra.
Qed.

Lemma sum_squares_zero (f : R -> R) (l : list R) :
  sum (map (fun x => f x ^ 2) l) = 0 -> forall x, In x l -> f x = 0.
Proof.
  induction l as [| y t IH]; simpl; intros Hs x Hin; [contradiction |].
  pose proof (pow2_ge_0 (f y)) as Hy.
  pose proof (sum_squares_nonneg f t) as Ht. simpl in *.
  destruct Hin as [-> | Hin].
  - assert (f x * (f x * 1) = 0) by lra. nra.
  - apply IH; [lra | exact Hin].
Qed.

Lemma shift_form_expand (l : list R) (da db : R) :
  shift_form l da db
  = da * da * sum_sq l + 2 * da * db * sum l + INR (length l) * (db * db).
Proof.
  unfold shift_form, sum_sq.
  induction l as [| x t IH]; [simpl; ring |].
  cbn [map sum length]. rewrite IH, S_INR. ring.
Qed.

Lemma normal_det_nonneg (l : list R) : 0 <= INR (length l) * normal_det l.
Proof.
  pose proof (sum_squares_nonneg (fun x => INR (length l) * x + - sum l) l) as H.
  change (0 <= shift_form l (INR (length l)) (- sum l)) in H.
  rewrite shift_form_expand in H. unfold normal_det. lra.
Qed.

Lemma levels_nonempty (l : list R) : normal_det l <> 0 -> 0 < INR (length l).
Proof.
  intros Hdet. destruct l as [| x t].
  - exfalso. apply Hdet. unfold normal_det, sum_sq. simpl. ring.
  - apply lt_0_INR. simpl. lia.
Qed.

Lemma normal_det_pos (l : list R) : normal_det l <> 0 -> 0 < normal_det l.
Proof.
  intros Hdet.
  pose proof (levels_nonempty l Hdet) as Hn.
  pose proof (normal_det_nonneg l) as Hd.
  destruct (Rlt_dec 0 (normal_det l)) as [| Hneg]; [assumption |].
  assert (normal_det l < 0) by lra. nra.
Qed.

Section LeastSquares.

Variables xs ys : list R.
Hypothesis Hlen : length xs = length ys.

Let n := INR (length xs).

Lemma ssr_expand (a b : R) :
  ssr xs ys a b
  = sum_sq ys - 2 * a * sum_xy xs ys - 2 * b * sum ys
    + a * a * sum_sq xs + 2 * a * b * sum xs + n * (b * b).
Proof.
  subst n. revert ys Hlen. unfold ssr, sum_sq, sum_xy.
  induction xs as [| x t IH]; intros [| y u] Hl; simpl in Hl; try discriminate.
  - simpl. ring.
  - injection Hl as Hl. specialize (IH u Hl).
    cbn [combine map sum length fst snd]. rewrite IH, S_INR. ring.
Qed.

(** Moving away from coefficients that satisfy the normal equations adds
    [shift_form] to the residual. *)
Lemma ssr_shift (a b a' b' : R) :
  a * sum_sq xs + b * sum xs = sum_xy xs ys ->
  a * sum xs + n * b = sum ys ->
  ssr xs ys a' b' = ssr xs ys a b + shift_form xs (a' - a) (b' - b).
Proof.
  intros E1 E2. rewrite !ssr_expand, shift_form_expand. fold n.
  rewrite <- E1, <- E2. ring.
Qed.

Hypothesis Hdet : normal_det xs <> 0.

Lemma normal_equations :
  ols_slope xs ys * sum_sq xs + ols_offset xs ys * sum xs = sum_xy xs ys /\
  ols_slope xs ys * sum xs + n * ols_offset xs ys = sum ys.
Proof.
  pose proof (levels_nonempty xs Hdet) as Hn. fold n in Hn.
  unfold ols_offset, ols_slope. fold n.
  assert (Hd : n * sum_sq xs - sum xs * sum xs <> 0) by exact Hdet.
  unfold normal_det. fold n.
  split; field; split; lra.
Qed.

Lemma ols_minimises : is_ols xs ys (ols_slope xs ys) (ols_offset xs ys).
Proof.
  destruct normal_equations as [E1 E2].
  intros a' b'. rewrite (ssr_shift _ _ a' b' E1 E2).
  pose proof (sum_squares_nonneg
                (fun x => (a' - ols_slope xs ys) * x + (b' - ols_offset xs ys))
                xs) as H.
  unfold shift_form. lra.
Qed.

Lemma ols_unique (a b : R) :
  is_ols xs ys a b -> a = ols_slope xs ys /\ b = ols_offset xs ys.
Proof.
  intros Hab. destruct normal_equations as [E1 E2].
  pose proof (Hab (ols_slope xs ys) (ols_offset xs ys)) as Hle.
  rewrite (ssr_shift _ _ a b E1 E2) in Hle.
  set (da := a - ols_slope xs ys) in *. set (db := b - ols_offset xs ys) in *.
  pose proof (sum_squares_nonneg (fun x => da * x + db) xs) as Hq.
  change (0 <= shift_form xs da db) in Hq.
  assert (Hz : shift_form xs da db = 0) by lra.
  rewrite shift_form_expand in Hz. fold n in Hz.
  pose proof (levels_nonempty xs Hdet) as Hn. fold n in Hn.
  pose proof (normal_det_pos xs Hdet) as Hd.
  unfold normal_det in Hd. fold n in Hd.
  assert (Hsq : (n * db + sum xs * da) * (n * db + sum xs * da)
                + (n * sum_sq xs - sum xs * sum xs) * (da * da) = 0).
  { replace ((n * db + sum xs * da) * (n * db + sum xs * da)
             + (n * sum_sq xs - sum xs * sum xs) * (da * da))
      with (n * (da * da * sum_sq xs + 2 * da * db * sum xs + n * (db * db)))
      by ring.
    rewrite Hz. ring. }
  set (u := n * db + sum xs * da) in *.
  set (D := n * sum_sq xs - sum xs * sum xs) in *.
  pose proof (Rle_0_sqr u) as Hu. pose proof (Rle_0_sqr da) as Hd2.
  unfold Rsqr in Hu, Hd2.
  assert (Hda2 : da * da = 0).
  { assert (Hp : 0 <= D * (da * da)) by (apply Rmult_le_pos; lra).
    assert (Hp0 : D * (da * da) = 0) by lra.
    apply Rmult_integral in Hp0. destruct Hp0; lra. }
  assert (Hda : da = 0).
  { apply Rmult_integral in Hda2. destruct Hda2; assumption. }
  assert (Hdb : db = 0).
  { assert (Hu0 : u * u = 0) by (rewrite Hda2 in Hsq; lra).
    apply Rmult_integral in Hu0.
    assert (Hu1 : u = 0) by (destruct Hu0; assumption).
    unfold u in Hu1. rewrite Hda in Hu1.
    assert (Hnd : n * db = 0) by lra.
    apply Rmult_integral in Hnd. destruct Hnd; lra. }
  unfold da in Hda. unfold db in Hdb. split; lra.
Qed.

End LeastSquares.

Lemma levels_vary_det (xs : list R) : levels_vary xs -> normal_det xs <> 0.
Proof.
  intros (x & x' & Hx & Hx' & Hne) Hd.
  set (n := INR (length xs)).
  assert (Hn : n <> 0).
  { unfold n. apply not_0_INR. destruct xs; [contradiction | simpl; lia]. }
  assert (Hz : shift_form xs n (- sum xs) = 0).
  { rewrite shift_form_expand. fold n.
    replace (n * n * sum_sq xs + 2 * n * - sum xs * sum xs
             + n * (- sum xs * - sum xs))
      with (n * normal_det xs) by (unfold normal_det; fold n; ring).
    rewrite Hd. ring. }
  pose proof (sum_squares_zero (fun y => n * y + - sum xs) xs Hz) as Hall.
  pose proof (Hall x Hx) as E. pose proof (Hall x' Hx') as E'. simpl in E, E'.
  apply Hne. apply (Rmult_eq_reg_l n); [lra | exact Hn].
Qed.

Lemma sums_constant (c : R) :
  forall xs ys : list R,
    length xs = length ys ->
    (forall y, In y ys -> y = c) ->
    sum_xy xs ys = c * sum xs /\ sum ys = INR (length xs) * c.
Proof.
  unfold sum_xy.
  induction xs as [| x t IH]; intros [| y u] Hl Hc; simpl in Hl; try discriminate.
  - simpl. split; ring.
  - injection Hl as Hl.
    destruct (IH u Hl (fun z Hz => Hc z (or_intror Hz))) as [E1 E2].
    rewrite (Hc y (or_introl eq_refl)).
    cbn [combine map sum length fst snd]. rewrite E1, E2, S_INR. split; ring.
Qed.

Lemma constant_powers_slope (c : R) (xs ys : list R) :
  length xs = length ys ->
  (forall y, In y ys -> y = c) ->
  ols_slope xs ys = 0.
Proof.
  intros Hl Hc. destruct (sums_constant c xs ys Hl Hc) as [E1 E2].
  unfold ols_slope. rewrite E1, E2. unfold Rdiv.
  replace (INR (length xs) * (c * sum xs) - sum xs * (INR (length xs) * c))
    with 0 by ring.
  apply Rmult_0_l.
Qed.

Lemma all_finite_map_Fin (ys : list R) : all_finite (map Fin ys) = Some ys.
Proof.
  induction ys as [| y t IH]; [reflexivity |]. simpl. now rewrite IH.
Qed.

Section Intercept.

Variable F : list R -> list np_float -> result (np_float * np_float).

Lemma polyfit1_wellposed (xs ys : list R) :
  length xs = length ys -> normal_det xs <> 0 ->
  polyfit1 F xs (map Fin ys)
  = Ok (Fin (ols_slope xs ys), Fin (ols_offset xs ys)).
Proof.
  intros Hl Hd. unfold polyfit1.
  pose proof (levels_nonempty xs Hd) as Hn.
  destruct (length xs =? 0)%nat eqn:E0.
  { apply Nat.eqb_eq in E0. rewrite E0 in Hn. simpl in Hn. lra. }
  rewrite length_map, <- Hl, Nat.eqb_refl. cbn [negb].
  rewrite all_finite_map_Fin.
  destruct (Req_dec_T (normal_det xs) 0); [contradiction | reflexivity].
Qed.

Lemma calculate_intercept_wellposed (xs ys : list R) :
  length xs = length ys -> normal_det xs <> 0 ->
  calculate_intercept F xs (map Fin ys)
  = Ok (np_div (Fin (- ols_offset xs ys)) (Fin (ols_slope xs ys))).
Proof.
  intros Hl Hd. unfold calculate_intercept.
  rewrite (polyfit1_wellposed xs ys Hl Hd). reflexivity.
Qed.

End Intercept.

Lemma np_div_finite (a b : R) : b <> 0 -> np_div (Fin a) (Fin b) = Fin (a / b).
Proof.
  intros Hb. unfold np_div. destruct (Req_dec_T b 0); [contradiction | reflexivity].
Qed.

Lemma np_div_by_zero (a : R) : ~ is_finite (np_div (Fin a) (Fin 0)).
Proof.
  unfold np_div. destruct (Req_dec_T 0 0) as [_ | H]; [| now elim H].
  destruct (Req_dec_T a 0); [exact (fun H => H) |].
  destruct (nonneg_sign a); exact (fun H => H).
Qed.

Lemma np_div_zero_divisor (x : np_float) : ~ is_finite (np_div x (Fin 0)).
Proof.
  destruct x as [a | | |]; [apply np_div_by_zero | | |]; unfold np_div;
    try (destruct (nonneg_sign 0)); exact (fun H => H).
Qed.

Lemma zero_powers_fit (xs ys : list R) :
  length xs = length ys -> normal_det xs <> 0 ->
  (forall y, In y ys -> y = 0) ->
  ols_slope xs ys = 0 /\ ols_offset xs ys = 0.
Proof.
  intros Hl Hd Hz.
  assert (Hs : ols_slope xs ys = 0) by now apply (constant_powers_slope 0).
  split; [exact Hs |].
  destruct (sums_constant 0 xs ys Hl Hz) as [_ E].
  unfold ols_offset. rewrite Hs, E. unfold Rdiv. ring.
Qed.

Lemma zero_powers_intercept
    (F : list R -> list np_float -> result (np_float * np_float))
    (xs ys : list R) :
  length xs = length ys -> normal_det xs <> 0 ->
  (forall y, In y ys -> y = 0) ->
  calculate_intercept F xs (map Fin ys) = Ok NaN.
Proof.
  intros Hl Hd Hz. destruct (zero_powers_fit xs ys Hl Hd Hz) as [Hs Ho].
  rewrite (calculate_intercept_wellposed F xs ys Hl Hd), Hs, Ho.
  unfold np_div.
  destruct (Req_dec_T 0 0) as [_ | H]; [| now elim H].
  destruct (Req_dec_T (- 0) 0) as [_ | H]; [reflexivity | exfalso; lra].
Qed.

(** The fit of the specification's example: levels [1..4], powers
    [3 * level - 12]. *)
Lemma example_fit :
  normal_det [1; 2; 3; 4] <> 0 /\
  ols_slope [1; 2; 3; 4] [3 * 1 - 12; 3 * 2 - 12; 3 * 3 - 12; 3 * 4 - 12] = 3 /\
  ols_offset [1; 2; 3; 4] [3 * 1 - 12; 3 * 2 - 12; 3 * 3 - 12; 3 * 4 - 12] = -12.
Proof.
  assert (Hd : normal_det [1; 2; 3; 4] = 20).
  { unfold normal_det, sum_sq. simpl. ring. }
  assert (Hs : ols_slope [1; 2; 3; 4]
                 [3 * 1 - 12; 3 * 2 - 12; 3 * 3 - 12; 3 * 4 - 12] = 3).
  { unfold ols_slope. rewrite Hd. unfold sum_xy. simpl. field. }
  split; [rewrite Hd; lra |]. split; [exact Hs |].
  unfold ols_offset. rewrite Hs. simpl. field.
Qed.

(** Constant powers over two levels: a zero slope. *)
Lemma flat_fit :
  normal_det [1; 2] <> 0 /\
  ols_slope [1; 2] [5; 5] = 0 /\
  ols_offset [1; 2] [5; 5] = 5.
Proof.
  assert (Hd : normal_det [1; 2] = 1).
  { unfold normal_det, sum_sq. simpl. ring. }
  assert (Hs : ols_slope [1; 2] [5; 5] = 0).
  { unfold ols_slope. rewrite Hd. unfold sum_xy. simpl. field. }
  split; [rewrite Hd; lra |]. split; [exact Hs |].
  unfold ols_offset. rewrite Hs. simpl. field.
Qed.

(** ** Building blocks: rounding and spacing *)





Lemma pow10_pos (d : nat) : 0 < 10 ^ d.
Proof. apply pow_lt. lra. Qed.




Lemma linspace_ok (start stop : R) (num : Z) :
  (0 <= num)%Z ->
  linspace start stop num
  = Ok (map (spaced_level start stop (Z.to_nat num)) (seq 0 (Z.to_nat num))).
Proof.
  intros Hnum. unfold linspace.
  replace (num <? 0)%Z with false by (symmetry; apply Z.ltb_ge; exact Hnum).
  f_equal. apply map_ext_in. intros i Hi. apply in_seq in Hi.
  unfold spaced_level.
  destruct (0 <? Z.to_nat num - 1)%nat eqn:E; [ring |].
  apply Nat.ltb_ge in E.
  assert (i = 0%nat) by lia. subst i. simpl. ring.
Qed.


Lemma sweep_levels_ok (start stop : R) (num : Z) :
  (0 <= num)%Z ->
  sweep_levels start stop num
  = Ok (map (fun i => round1 5 (spaced_level start stop (Z.to_nat num) i))
            (seq 0 (Z.to_nat num))).
Proof.
  intros Hnum. unfold sweep_levels. rewrite (linspace_ok _ _ _ Hnum).
  cbn [rbind]. unfold round. now rewrite map_map.
Qed.






Lemma spaced_level_first (start stop : R) (n : nat) :
  spaced_level start stop n 0 = start.
Proof. unfold spaced_level. simpl. ring. Qed.


(** ** Building blocks: the instruments *)

Lemma bind_run {A B : Type} (m : M A) (k : A -> M B) (w : world) :
  bind m k w = match m w with
               | (Ok a, w') => k a w'
               | (Err e, w') => (Err e, w')
               end.
Proof. reflexivity. Qed.

Lemma keeps_ret {A : Type} (a : A) : keeps_generator (ret a).
Proof. intros w. reflexivity. Qed.

Lemma keeps_lift {A : Type} (r : result A) : keeps_generator (lift r).
Proof. intros w. reflexivity. Qed.

Lemma keeps_sleep (s : R) : keeps_generator (time_sleep s).
Proof. intros w. reflexivity. Qed.

Lemma keeps_print (l : out_line) : keeps_generator (print l).
Proof. intros w. reflexivity. Qed.

Lemma keeps_osc_write (c : osc_cmd) : keeps_generator (Oscilloscope.write c).
Proof. intros w. reflexivity. Qed.

Lemma keeps_osc_query (q : osc_query) : keeps_generator (Oscilloscope.query q).
Proof.
  intros w. unfold Oscilloscope.query.
  destruct (osc_replies w) as [| [r |] rest]; reflexivity.
Qed.

Lemma keeps_bind {A B : Type} (m : M A) (k : A -> M B) :
  keeps_generator m -> (forall a, keeps_generator (k a)) ->
  keeps_generator (bind m k).
Proof.
  intros Hm Hk w. rewrite bind_run. specialize (Hm w).
  destruct (m w) as [[a | e] w1]; simpl in Hm.
  - rewrite Hk. exact Hm.
  - exact Hm.
Qed.

Create HintDb keeps.
#[local] Hint Resolve keeps_ret keeps_lift keeps_sleep keeps_print
  keeps_osc_write keeps_osc_query : keeps.

Ltac keeps_tac :=
  repeat first
    [ solve [auto with keeps]
    | apply keeps_bind; [| intros ?] ].

Lemma keeps_set_channel_scale (channel : nat) (scale : R) :
  keeps_generator (Oscilloscope.set_channel_scale channel scale).
Proof.
  unfold Oscilloscope.set_channel_scale.
  destruct (channel =? 1)%nat; [auto with keeps |].
  destruct (channel =? 2)%nat; auto with keeps.
Qed.

Lemma keeps_get_waveform_data (channel : nat) :
  keeps_generator (Oscilloscope.get_waveform_data channel).
Proof.
  unfold Oscilloscope.get_waveform_data, Oscilloscope.stop,
    Oscilloscope.set_source_channel, Oscilloscope.set_wav_mode,
    Oscilloscope.set_wav_format, Oscilloscope.set_wav_start,
    Oscilloscope.set_wav_stop, Oscilloscope.waveform_data.
  keeps_tac.
Qed.

Lemma keeps_set_oscilloscope (freq amp : R) :
  keeps_generator (set_oscilloscope freq amp).
Proof.
  unfold set_oscilloscope, Oscilloscope.set_timebase,
    Oscilloscope.set_trigger_source, Oscilloscope.set_trigger_level.
  pose proof keeps_set_channel_scale.
  keeps_tac.
Qed.

(** Whatever its outcome, a step leaves the generator configured for the
    step's level with its output enabled. *)
Lemma sweep_step_generator (f1 f2 fs v : R) (w : world) :
  sg_state (snd (sweep_step f1 f2 fs v w))
  = (sg_sent w ++ [APPLy "SIN" f1 v 0; OUTP 1 true], true, sg_output2 w).
Proof.
  unfold sweep_step.
  match goal with
  | |- context [bind (SignalGenerator.enable_output 1) ?k] => set (rest := k)
  end.
  assert (Hrest : keeps_generator (rest tt)).
  { subst rest. cbv beta.
    pose proof keeps_set_oscilloscope. pose proof keeps_get_waveform_data.
    unfold Oscilloscope.run, Oscilloscope.stop. keeps_tac. }
  unfold bind at 1 2. cbn [SignalGenerator.set_waveform SignalGenerator.write
    SignalGenerator.enable_output Nat.eqb].
  rewrite Hrest. unfold sg_state. cbn. now rewrite <- app_assoc.
Qed.

Lemma sweep_step_output_on (f1 f2 fs v : R) (w : world) :
  output_on (snd (sweep_step f1 f2 fs v w)).
Proof.
  pose proof (sweep_step_generator f1 f2 fs v w) as H.
  unfold sg_state in H. unfold output_on. congruence.
Qed.

(** ** Building blocks: the sweep *)

Lemma sweep_loop_cons (f1 f2 fs v : R) (t : list R) (acc : list np_float)
    (w : world) :
  sweep_loop f1 f2 fs (v :: t) acc w
  = match sweep_step f1 f2 fs v w with
    | (Ok p, w1) => sweep_loop f1 f2 fs t (acc ++ [p]) w1
    | (Err e, w1) => (Err e, w1)
    end.
Proof. reflexivity. Qed.

Lemma sweep_loop_app (f1 f2 fs : R) (pre post : list R) :
  forall (acc : list np_float) (w : world),
    sweep_loop f1 f2 fs (pre ++ post) acc w
    = match sweep_loop f1 f2 fs pre acc w with
      | (Ok ps, w1) => sweep_loop f1 f2 fs post ps w1
      | (Err e, w1) => (Err e, w1)
      end.
Proof.
  induction pre as [| v t IH]; intros acc w; [reflexivity |].
  rewrite <- app_comm_cons, !sweep_loop_cons.
  destruct (sweep_step f1 f2 fs v w) as [[p | e] w1]; [apply IH | reflexivity].
Qed.

Lemma sweep_loop_length (f1 f2 fs : R) (lv : list R) :
  forall (acc ps : list np_float) (w w' : world),
    sweep_loop f1 f2 fs lv acc w = (Ok ps, w') ->
    length ps = (length acc + length lv)%nat.
Proof.
  induction lv as [| v t IH]; intros acc ps w w' H.
  - injection H as <- _. simpl. lia.
  - rewrite sweep_loop_cons in H.
    destruct (sweep_step f1 f2 fs v w) as [[p | e] w1]; [| discriminate].
    apply IH in H. rewrite H, length_app. simpl. lia.
Qed.

(** After at least one step, completed or not, the output is enabled. *)
Lemma sweep_loop_output_on (f1 f2 fs : R) (lv : list R) :
  forall (acc : list np_float) (w : world),
    lv <> [] -> output_on (snd (sweep_loop f1 f2 fs lv acc w)).
Proof.
  induction lv as [| v t IH]; intros acc w Hne; [congruence |].
  rewrite sweep_loop_cons.
  pose proof (sweep_step_output_on f1 f2 fs v w) as Hon.
  destruct (sweep_step f1 f2 fs v w) as [[p | e] w1]; simpl in Hon.
  - destruct t as [| v' t']; [exact Hon |]. apply IH. congruence.
  - exact Hon.
Qed.

(** The generator's last message after at least one step. *)
Lemma sweep_loop_last_message (f1 f2 fs : R) (lv : list R) :
  forall (acc : list np_float) (w : world),
    lv <> [] ->
    exists before,
      sg_sent (snd (sweep_loop f1 f2 fs lv acc w)) = before ++ [OUTP 1 true].
Proof.
  induction lv as [| v t IH]; intros acc w Hne; [congruence |].
  rewrite sweep_loop_cons.
  pose proof (sweep_step_generator f1 f2 fs v w) as Hg. unfold sg_state in Hg.
  assert (Hs : sg_sent (snd (sweep_step f1 f2 fs v w))
               = (sg_sent w ++ [APPLy "SIN" f1 v 0]) ++ [OUTP 1 true]).
  { rewrite <- app_assoc. simpl. congruence. }
  destruct (sweep_step f1 f2 fs v w) as [[p | e] w1]; simpl in Hs.
  - destruct t as [| v' t']; [eexists; exact Hs |]. apply IH. congruence.
  - eexists; exact Hs.
Qed.

(** [measure_iip2], path by path. *)
Lemma measure_iip2_paths
    (F : list R -> list np_float -> result (np_float * np_float))
    (start stop : R) (num : Z) (f1 f2 fs : R) (w : world) :
  measure_iip2 F start stop num f1 f2 fs w
  = match sweep_levels start stop num with
    | Err e => (Err e, w)
    | Ok lv =>
        match sweep_loop f1 f2 fs lv [] w with
        | (Err e, w1) => (Err e, w1)
        | (Ok ps, w1) =>
            let w2 := SignalGenerator.react (OUTP 1 false) w1 in
            if (1 <? length ps)%nat then
              match calculate_intercept F lv ps with
              | Err e => (Err e, w2)
              | Ok v => (Ok [PyArray lv; PyList ps], snd (print (OutIIP2 v) w2))
              end
            else (Ok [PyArray lv; PyList ps], w2)
        end
    end.
Proof.
  unfold measure_iip2. rewrite bind_run. unfold lift at 1.
  destruct (sweep_levels start stop num) as [lv | e]; [| reflexivity].
  rewrite bind_run. unfold time_sleep at 1, ret at 1.
  rewrite bind_run.
  destruct (sweep_loop f1 f2 fs lv [] w) as [[ps | e] w1]; [| reflexivity].
  rewrite bind_run. cbn [SignalGenerator.disable_output Nat.eqb SignalGenerator.write].
  rewrite bind_run.
  destruct (1 <? length ps)%nat.
  - rewrite bind_run. unfold lift at 1.
    destruct (calculate_intercept F lv ps) as [v | e]; reflexivity.
  - reflexivity.
Qed.

Lemma react_output_off (w : world) :
  output_off (SignalGenerator.react (OUTP 1 false) w).
Proof. reflexivity. Qed.

Lemma print_keeps_output (l : out_line) (w : world) :
  sg_output1 (snd (print l w)) = sg_output1 w.
Proof. reflexivity. Qed.

(** What each transformer leaves alone. *)
Lemma replies_react (c : sg_cmd) (w : world) :
  osc_replies (SignalGenerator.react c w) = osc_replies w.
Proof. destruct c as [[| [| [| ch]]] on | k f a o]; reflexivity. Qed.

Lemma stdout_react (c : sg_cmd) (w : world) :
  stdout (SignalGenerator.react c w) = stdout w.
Proof. destruct c as [[| [| [| ch]]] on | k f a o]; reflexivity. Qed.

Lemma replies_received (m : osc_msg) (w : world) :
  osc_replies (Oscilloscope.received m w) = osc_replies w.
Proof. reflexivity. Qed.

Lemma stdout_received (m : osc_msg) (w : world) :
  stdout (Oscilloscope.received m w) = stdout w.
Proof. reflexivity. Qed.

Lemma replies_answered (w : world) :
  osc_replies (Oscilloscope.answered w) = tl (osc_replies w).
Proof. reflexivity. Qed.

Lemma stdout_answered (w : world) :
  stdout (Oscilloscope.answered w) = stdout w.
Proof. reflexivity. Qed.

Lemma replies_printed (l : out_line) (w : world) :
  osc_replies (printed l w) = osc_replies w.
Proof. reflexivity. Qed.

Lemma stdout_printed (l : out_line) (w : world) :
  stdout (printed l w) = stdout w ++ [l].
Proof. reflexivity. Qed.

Create Rewrite HintDb world.
#[local] Hint Rewrite replies_react stdout_react replies_received
  stdout_received replies_answered stdout_answered replies_printed
  stdout_printed : world.

Ltac unfold_step :=
  unfold sweep_step, set_oscilloscope, Oscilloscope.get_waveform_data,
    Oscilloscope.waveform_data;
  unfold time_sleep, SignalGenerator.set_waveform,
    SignalGenerator.enable_output, SignalGenerator.write,
    Oscilloscope.set_timebase, Oscilloscope.set_channel_scale,
    Oscilloscope.set_trigger_source, Oscilloscope.set_trigger_level,
    Oscilloscope.run, Oscilloscope.stop, Oscilloscope.set_source_channel,
    Oscilloscope.set_wav_mode, Oscilloscope.set_wav_format,
    Oscilloscope.set_wav_start, Oscilloscope.set_wav_stop,
    Oscilloscope.write, Oscilloscope.query, print, bind, lift, ret;
  cbn [Nat.eqb].

Lemma sweep_step_ok (f1 f2 fs v : R) (w : world) (raw opc : string)
    (rest : list (option string)) (wf : list R) (p : np_float) :
  f1 <> 0 ->
  osc_replies w = Some raw :: Some opc :: rest ->
  Oscilloscope.parse_waveform raw = Ok wf ->
  calculate_second_order_product wf f1 f2 fs = Ok p ->
  exists w',
    sweep_step f1 f2 fs v w = (Ok p, w') /\
    osc_replies w' = rest /\
    stdout w' = stdout w ++ [OutVoltage v].
Proof.
  intros Hf Hr Hp Hc. unfold_step.
  rewrite (py_div_ok 2 f1 Hf). cbv beta iota zeta.
  autorewrite with world. rewrite Hr. cbv beta iota zeta.
  autorewrite with world. rewrite Hr. cbn [tl]. rewrite Hp, Hc.
  eexists. split; [reflexivity |].
  autorewrite with world. rewrite Hr. split; reflexivity.
Qed.

(** A capture that gets no reply raises, with the output enabled and
    nothing more sent. *)
Lemma sweep_step_timeout (f1 f2 fs v : R) (w : world) :
  f1 <> 0 ->
  (osc_replies w = [] \/ exists rest, osc_replies w = None :: rest) ->
  exists w',
    sweep_step f1 f2 fs v w = (Err VisaIOError, w') /\
    osc_replies w' = tl (osc_replies w) /\
    stdout w' = stdout w ++ [OutVoltage v].
Proof.
  intros Hf Hr. unfold_step.
  rewrite (py_div_ok 2 f1 Hf). cbv beta iota zeta.
  autorewrite with world.
  destruct Hr as [Hr | [rest Hr]]; rewrite Hr; cbv beta iota zeta;
    (eexists; split; [reflexivity |]);
    autorewrite with world; rewrite Hr; split; reflexivity.
Qed.

(** A capture whose reply does not parse raises as well. *)
Lemma sweep_step_bad_reply (f1 f2 fs v : R) (w : world) (raw opc : string)
    (rest : list (option string)) (e : exn) :
  f1 <> 0 ->
  osc_replies w = Some raw :: Some opc :: rest ->
  Oscilloscope.parse_waveform raw = Err e ->
  exists w', sweep_step f1 f2 fs v w = (Err e, w') /\ osc_replies w' = rest.
Proof.
  intros Hf Hr Hp. unfold_step.
  rewrite (py_div_ok 2 f1 Hf). cbv beta iota zeta.
  autorewrite with world. rewrite Hr. cbv beta iota zeta.
  autorewrite with world. rewrite Hr. cbn [tl]. rewrite Hp.
  eexists. split; [reflexivity |].
  autorewrite with world. rewrite Hr. reflexivity.
Qed.

(** A capture that parses but is too short for the extractor raises. *)
Lemma sweep_step_bad_waveform (f1 f2 fs v : R) (w : world) (raw opc : string)
    (rest : list (option string)) (wf : list R) (e : exn) :
  f1 <> 0 ->
  osc_replies w = Some raw :: Some opc :: rest ->
  Oscilloscope.parse_waveform raw = Ok wf ->
  calculate_second_order_product wf f1 f2 fs = Err e ->
  exists w', sweep_step f1 f2 fs v w = (Err e, w') /\ osc_replies w' = rest.
Proof.
  intros Hf Hr Hp Hc. unfold_step.
  rewrite (py_div_ok 2 f1 Hf). cbv beta iota zeta.
  autorewrite with world. rewrite Hr. cbv beta iota zeta.
  autorewrite with world. rewrite Hr. cbn [tl]. rewrite Hp, Hc.
  eexists. split; [reflexivity |].
  autorewrite with world. rewrite Hr. reflexivity.
Qed.

(** ** Building blocks: the concrete captures *)

Lemma two_samples_items :
  Py.split_comma (Py.re_sub_dot 11 Examples.two_samples)
  = ["1"%string; "0"%string].
Proof. vm_compute. reflexivity. Qed.

Lemma float_one : Py.float "1" = Ok 1.
Proof.
  unfold Py.float.
  replace (Py.float_parts "1") with (Some (1%Z, 0%Z)) by (vm_compute; reflexivity).
  f_equal. simpl. ring.
Qed.

Lemma float_zero : Py.float "0" = Ok 0.
Proof.
  unfold Py.float.
  replace (Py.float_parts "0") with (Some (0%Z, 0%Z)) by (vm_compute; reflexivity).
  f_equal. simpl. ring.
Qed.

Lemma float_rejects_text : Py.float "abc" = Err ValueError.
Proof.
  unfold Py.float.
  now replace (Py.float_parts "abc") with (@None (Z * Z))
    by (vm_compute; reflexivity).
Qed.

Lemma two_samples_parse :
  Oscilloscope.parse_waveform Examples.two_samples = Ok [1; 0].
Proof.
  unfold Oscilloscope.parse_waveform. rewrite two_samples_items.
  cbn [mapR]. rewrite float_one, float_zero. reflexivity.
Qed.

(** The transform of [[1; 0]]: its retained half is the single bin 0, of
    magnitude 1. *)
Lemma two_samples_bin_power : bin_power [1; 0] 1 0 = 1.
Proof.
  unfold bin_power, dft_bin, cabs. cbn [length dft_sum twiddle cadd fst snd INR].
  replace (2 * PI * 0 * 0 / (1 + 1)) with 0 by (unfold Rdiv; ring).
  replace (2 * PI * 0 * 1 / (1 + 1)) with 0 by (unfold Rdiv; ring).
  rewrite cos_0, sin_0.
  replace ((1 * 1 + (0 * 1 + 0)) * (1 * 1 + (0 * 1 + 0)) +
           (- (1 * 0) + (- (0 * 0) + 0)) * (- (1 * 0) + (- (0 * 0) + 0)))
    with 1 by ring.
  rewrite sqrt_1. simpl. field.
Qed.

Lemma two_samples_product (f1 f2 fs : R) :
  fs <> 0 -> calculate_second_order_product [1; 0] f1 f2 fs = Ok (Fin 0).
Proof.
  intros Hfs.
  destruct (calculate_second_order_product_value [1; 0] f1 f2 fs)
    as (ks & kd & [Hks _] & _ & [Hkd _] & _ & E); [simpl; lia | exact Hfs |].
  cbn [length] in *. change (2 / 2)%nat with 1%nat in *.
  assert (ks = 0%nat) by lia. assert (kd = 0%nat) by lia. subst ks kd.
  rewrite E, two_samples_bin_power.
  unfold Rmax. destruct (Rle_dec 1 1) as [_ | H]; [| exfalso; lra].
  unfold np_log10.
  destruct (Req_dec_T 1 0) as [H | _]; [exfalso; lra |].
  destruct (Rlt_dec 1 0) as [H | _]; [exfalso; lra |].
  unfold np_scale. f_equal. f_equal. rewrite ln_1. unfold Rdiv. ring.
Qed.

(** ** Building blocks: concrete levels *)

Lemma rint_IZR (k : Z) : rint (IZR k) = k.
Proof.
  unfold rint. rewrite ZfloorZ.
  destruct (Rlt_dec (IZR k - IZR k) (1 / 2)) as [_ | H]; [reflexivity |].
  exfalso. apply H. lra.
Qed.

(** Integers are unchanged by rounding to [d] decimals. *)
Lemma round1_IZR (d : nat) (k : Z) : round1 d (IZR k) = IZR k.
Proof.
  unfold round1. pose proof (pow10_pos d) as Hp.
  replace (10 ^ d) with (IZR (10 ^ Z.of_nat d)) in * by (now rewrite <- pow_IZR).
  rewrite <- mult_IZR, rint_IZR, mult_IZR. field. lra.
Qed.

Lemma levels_1_1_1 : sweep_levels 1 1 1 = Ok [1].
Proof.
  rewrite sweep_levels_ok by lia.
  change (Z.to_nat 1) with 1%nat. cbn [seq map].
  rewrite spaced_level_first. now rewrite (round1_IZR 5 1).
Qed.

Lemma levels_1_2_2 : sweep_levels 1 2 2 = Ok [1; 2].
Proof.
  rewrite sweep_levels_ok by lia.
  change (Z.to_nat 2) with 2%nat. cbn [seq map].
  rewrite spaced_level_first.
  replace (spaced_level 1 2 2 1) with 2
    by (unfold spaced_level; simpl; field).
  now rewrite (round1_IZR 5 1), (round1_IZR 5 2).
Qed.

Lemma levels_1_3_3 : sweep_levels 1 3 3 = Ok [1; 2; 3].
Proof.
  rewrite sweep_levels_ok by lia.
  change (Z.to_nat 3) with 3%nat. cbn [seq map].
  rewrite spaced_level_first.
  replace (spaced_level 1 3 3 1) with 2
    by (unfold spaced_level; simpl; field).
  replace (spaced_level 1 3 3 2) with 3
    by (unfold spaced_level; simpl; field).
  now rewrite (round1_IZR 5 1), (round1_IZR 5 2), (round1_IZR 5 3).
Qed.



Lemma default_tone_nonzero : Examples.freq1 <> 0.
Proof. unfold Examples.freq1. lra. Qed.

Lemma default_rate_nonzero : Examples.fs <> 0.
Proof. unfold Examples.fs. lra. Qed.

(** ** Concrete runs of the sweep *)

Import Examples.

Lemma flat_intercept :
  calculate_intercept no_lstsq [1; 2] [Fin 0; Fin 0] = Ok NaN.
Proof.
  destruct flat_fit as (Hd & _ & _).
  change [Fin 0; Fin 0] with (map Fin [0; 0]).
  rewrite calculate_intercept_wellposed by (reflexivity || exact Hd).
  assert (Hs : ols_slope [1; 2] [0; 0] = 0).
  { apply (constant_powers_slope 0); [reflexivity |].
    intros y [<- | [<- | []]]; reflexivity. }
  assert (Ho : ols_offset [1; 2] [0; 0] = 0).
  { unfold ols_offset. rewrite Hs. simpl. field. }
  rewrite Hs, Ho. unfold np_div.
  destruct (Req_dec_T 0 0) as [_ | H]; [| now elim H].
  destruct (Req_dec_T (- 0) 0) as [_ | H]; [reflexivity | exfalso; lra].
Qed.

(** One step against an oscilloscope that never answers. *)
Lemma silent_run :
  exists w',
    measure_iip2 no_lstsq 1 1 1 freq1 freq2 fs silent_scope
    = (Err VisaIOError, w') /\
    sg_sent w' = [APPLy "SIN" freq1 1 0; OUTP 1 true] /\
    sg_output1 w' = true.
Proof.
  rewrite measure_iip2_paths, levels_1_1_1, sweep_loop_cons.
  pose proof (sweep_step_generator freq1 freq2 fs 1 silent_scope) as Hg.
  destruct (sweep_step_timeout freq1 freq2 fs 1 silent_scope
              default_tone_nonzero (or_introl eq_refl)) as (w' & E & _ & _).
  rewrite E in Hg |- *. unfold sg_state in Hg. cbn [snd] in Hg.
  exists w'. split; [reflexivity |].
  injection Hg as Hs Ho _. split; assumption.
Qed.

(** Three steps, the second capture timing out. *)
Lemma aborted_run_steps :
  exists w1 w2,
    sweep_loop freq1 freq2 fs [1] [] second_capture_fails = (Ok [Fin 0], w1) /\
    sweep_step freq1 freq2 fs 2 w1 = (Err VisaIOError, w2) /\
    sg_sent w2 = [APPLy "SIN" freq1 1 0; OUTP 1 true;
                  APPLy "SIN" freq1 2 0; OUTP 1 true] /\
    sg_output1 w2 = true /\
    osc_replies w2 = [Some two_samples; Some opc_reply] /\
    stdout w2 = [OutVoltage 1; OutVoltage 2].
Proof.
  pose proof (sweep_step_generator freq1 freq2 fs 1 second_capture_fails) as Hg1.
  destruct (sweep_step_ok freq1 freq2 fs 1 second_capture_fails
              two_samples opc_reply
              [None; Some two_samples; Some opc_reply] [1; 0] (Fin 0)
              default_tone_nonzero eq_refl two_samples_parse
              (two_samples_product _ _ _ default_rate_nonzero))
    as (w1 & E1 & Hr1 & Ho1).
  rewrite E1 in Hg1. unfold sg_state in Hg1. cbn [snd] in Hg1.
  injection Hg1 as Hs1 Hon1 Hoff1.
  pose proof (sweep_step_generator freq1 freq2 fs 2 w1) as Hg2.
  destruct (sweep_step_timeout freq1 freq2 fs 2 w1 default_tone_nonzero)
    as (w2 & E2 & Hr2 & Ho2).
  { right. eexists. exact Hr1. }
  rewrite E2 in Hg2. unfold sg_state in Hg2. cbn [snd] in Hg2.
  injection Hg2 as Hs2 Hon2 Hoff2.
  exists w1, w2. split.
  { rewrite sweep_loop_cons, E1. reflexivity. }
  split; [exact E2 |]. split.
  { rewrite Hs2, Hs1. reflexivity. }
  split; [exact Hon2 |]. split.
  { rewrite Hr2, Hr1. reflexivity. }
  rewrite Ho2, Ho1. reflexivity.
Qed.

Lemma aborted_run :
  exists w',
    measure_iip2 no_lstsq 1 3 3 freq1 freq2 fs second_capture_fails
    = (Err VisaIOError, w') /\
    sg_sent w' = [APPLy "SIN" freq1 1 0; OUTP 1 true;
                  APPLy "SIN" freq1 2 0; OUTP 1 true] /\
    sg_output1 w' = true /\
    osc_replies w' = [Some two_samples; Some opc_reply] /\
    stdout w' = [OutVoltage 1; OutVoltage 2].
Proof.
  destruct aborted_run_steps as (w1 & w2 & E1 & E2 & Hrest).
  exists w2. split; [| exact Hrest].
  rewrite measure_iip2_paths, levels_1_3_3.
  change [1; 2; 3] with ([1] ++ [2; 3]).
  rewrite sweep_loop_app, E1, sweep_loop_cons, E2. reflexivity.
Qed.

(** Two steps, both captured. *)
Lemma completed_run :
  exists w',
    measure_iip2 no_lstsq 1 2 2 freq1 freq2 fs two_captures
    = (Ok [PyArray [1; 2]; PyList [Fin 0; Fin 0]], w') /\
    stdout w' = [OutVoltage 1; OutVoltage 2; OutIIP2 NaN] /\
    sg_output1 w' = false /\
    sg_sent w' = [APPLy "SIN" freq1 1 0; OUTP 1 true;
                  APPLy "SIN" freq1 2 0; OUTP 1 true; OUTP 1 false].
Proof.
  pose proof (sweep_step_generator freq1 freq2 fs 1 two_captures) as Hg1.
  destruct (sweep_step_ok freq1 freq2 fs 1 two_captures
              two_samples opc_reply
              [Some two_samples; Some opc_reply] [1; 0] (Fin 0)
              default_tone_nonzero eq_refl two_samples_parse
              (two_samples_product _ _ _ default_rate_nonzero))
    as (w1 & E1 & Hr1 & Ho1).
  rewrite E1 in Hg1. unfold sg_state in Hg1. cbn [snd] in Hg1.
  injection Hg1 as Hs1 Hon1 Hoff1.
  pose proof (sweep_step_generator freq1 freq2 fs 2 w1) as Hg2.
  destruct (sweep_step_ok freq1 freq2 fs 2 w1 two_samples opc_reply
              [] [1; 0] (Fin 0)
              default_tone_nonzero Hr1 two_samples_parse
              (two_samples_product _ _ _ default_rate_nonzero))
    as (w2 & E2 & Hr2 & Ho2).
  rewrite E2 in Hg2. unfold sg_state in Hg2. cbn [snd] in Hg2.
  injection Hg2 as Hs2 Hon2 Hoff2.
  eexists. split.
  { rewrite measure_iip2_paths, levels_1_2_2.
    rewrite sweep_loop_cons, E1. cbv beta iota.
    rewrite sweep_loop_cons, E2.
    cbn [sweep_loop ret app length Nat.ltb Nat.leb].
    rewrite flat_intercept. reflexivity. }
  cbn [snd print]. rewrite stdout_printed, stdout_react, Ho2, Ho1.
  split; [reflexivity |]. split; [reflexivity |].
  cbn [printed sg_sent SignalGenerator.react]. rewrite Hs2, Hs1.
  rewrite <- app_assoc. reflexivity.
Qed.


(** ** Building blocks: what a caller of [measure_iip2] can observe *)

(** Everything there is to know about a sweep that returned. *)
Lemma measure_iip2_returns
    (F : list R -> list np_float -> result (np_float * np_float))
    (start stop : R) (num : Z) (f1 f2 rate : R) (w w' : world) (t : pytuple) :
  measure_iip2 F start stop num f1 f2 rate w = (Ok t, w') ->
  exists lv ps w1,
    sweep_levels start stop num = Ok lv /\
    sweep_loop f1 f2 rate lv [] w = (Ok ps, w1) /\
    t = [PyArray lv; PyList ps] /\
    if (1 <? length ps)%nat then
      exists v, calculate_intercept F lv ps = Ok v /\
                w' = printed (OutIIP2 v) (SignalGenerator.react (OUTP 1 false) w1)
    else w' = SignalGenerator.react (OUTP 1 false) w1.
Proof.
  rewrite measure_iip2_paths. intros H.
  destruct (sweep_levels start stop num) as [lv | e]; [| discriminate].
  destruct (sweep_loop f1 f2 rate lv [] w) as [[ps | e] w1] eqn:El;
    [| discriminate].
  exists lv, ps, w1. split; [reflexivity |]. split; [exact El |].
  cbv zeta in H. destruct (1 <? length ps)%nat.
  - destruct (calculate_intercept F lv ps) as [v | e]; [| discriminate].
    injection H as <- <-. split; [reflexivity |]. exists v. split; reflexivity.
  - injection H as <- <-. split; reflexivity.
Qed.



(** * The claims *)

(** ** Spectral product extractor *)

(** C6.  Swapping the two tones leaves the extracted power unchanged, for
    every waveform and sample rate (including those on which the extractor
    raises: it raises the same exception). *)
Theorem tone_swap_invariant (w : list R) (f1 f2 rate : R) :
  calculate_second_order_product w f1 f2 rate
  = calculate_second_order_product w f2 f1 rate.
Proof.
  unfold calculate_second_order_product.
  rewrite (Rplus_comm f2 f1), (Rabs_minus_sym f2 f1). reflexivity.
Qed.

(** C10.  A waveform of one sample is non-empty, yet its retained
    half-spectrum has [1 // 2 = 0] bins, the magnitudes would be divided by
    that zero length, and [calculate_second_order_product] raises (the
    nearest-bin lookup has nothing to select).  With a usable sample rate
    the extractor returns a value exactly on the waveforms of at least two
    samples. *)
Theorem single_sample_waveform_rejected (x f1 f2 rate : R) :
  [x] <> [] /\
  (forall spectrum : list complex,
     length spectrum = length [x] ->
     firstn (length spectrum / 2) spectrum = [] /\
     INR (length (firstn (length spectrum / 2) spectrum)) = 0) /\
  (exists e, calculate_second_order_product [x] f1 f2 rate = Err e) /\
  (rate <> 0 -> calculate_second_order_product [x] f1 f2 rate = Err ValueError) /\
  (rate <> 0 ->
   forall w : list R,
     (exists v, calculate_second_order_product w f1 f2 rate = Ok v)
     <-> (2 <= length w)%nat).
Proof.
  split; [discriminate |]. split.
  { intros spectrum Hl. cbn [length] in Hl. rewrite Hl.
    change (1 / 2)%nat with 0%nat. split; reflexivity. }
  split.
  { rewrite calculate_second_order_product_single.
    destruct (Req_dec_T rate 0); eexists; reflexivity. }
  split.
  { intros Hr. rewrite calculate_second_order_product_single.
    destruct (Req_dec_T rate 0); [contradiction | reflexivity]. }
  intros Hr w. split.
  - intros [v Hv]. eapply calculate_second_order_product_needs_two; exact Hv.
  - intros Hl. now apply calculate_second_order_product_ok.
Qed.

Lemma single_sample_waveform_rejected_witness :
  1 <> 0 /\
  calculate_second_order_product [1] freq1 freq2 1 = Err ValueError /\
  ((exists v, calculate_second_order_product [1; 0] freq1 freq2 1 = Ok v)
   <-> (2 <= length [1; 0])%nat).
Proof.
  assert (H1 : 1 <> 0) by lra.
  split; [exact H1 |].
  destruct (single_sample_waveform_rejected 1 freq1 freq2 1)
    as (_ & _ & _ & Hone & Htwo).
  split; [exact (Hone H1) | exact (Htwo H1 [1; 0])].
Defined.




(** ** Intercept estimator *)

(** C5.  For equal-length sequences of at least two points whose levels are
    not all equal, [powers ~ a * levels + b] has exactly one pair of
    least-squares coefficients, and when its slope [a] is not zero
    [calculate_intercept] returns [-b / a].  For levels [1, 2, 3, 4] and
    powers [3 * level - 12] it returns [4]. *)
Theorem calculate_intercept_least_squares
    (F : list R -> list np_float -> result (np_float * np_float)) :
  (forall xs ys : list R,
     length xs = length ys -> (2 <= length xs)%nat -> levels_vary xs ->
     exists a b,
       is_ols xs ys a b /\
       (forall a' b', is_ols xs ys a' b' -> a' = a /\ b' = b) /\
       (a <> 0 -> calculate_intercept F xs (map Fin ys) = Ok (Fin (- b / a)))) /\
  calculate_intercept F [1; 2; 3; 4]
    (map Fin [3 * 1 - 12; 3 * 2 - 12; 3 * 3 - 12; 3 * 4 - 12])
  = Ok (Fin 4).
Proof.
  split.
  - intros xs ys Hl _ Hv. pose proof (levels_vary_det xs Hv) as Hd.
    exists (ols_slope xs ys), (ols_offset xs ys).
    split; [now apply ols_minimises |].
    split; [intros a' b'; now apply ols_unique |].
    intros Ha. rewrite (calculate_intercept_wellposed F xs ys Hl Hd).
    now rewrite np_div_finite.
  - destruct example_fit as (Hd & Hs & Ho).
    rewrite calculate_intercept_wellposed by (reflexivity || exact Hd).
    rewrite Hs, Ho, np_div_finite by lra. do 2 f_equal. field.
Qed.

Lemma calculate_intercept_least_squares_witness :
  length [1; 2] = length [1; 3] /\ (2 <= length [1; 2])%nat /\
  levels_vary [1; 2] /\
  exists a b,
    is_ols [1; 2] [1; 3] a b /\
    (a <> 0 ->
     calculate_intercept no_lstsq [1; 2] (map Fin [1; 3]) = Ok (Fin (- b / a))).
Proof.
  assert (Hv : levels_vary [1; 2]).
  { exists 1, 2. simpl. repeat split; auto. lra. }
  assert (H2 : (2 <= length [1; 2])%nat) by (simpl; lia).
  split; [reflexivity |]. split; [exact H2 |]. split; [exact Hv |].
  destruct (proj1 (calculate_intercept_least_squares no_lstsq)
              [1; 2] [1; 3] eq_refl H2 Hv) as (a & b & Hols & _ & Hi).
  exists a, b. split; assumption.
Defined.

(** C3, as stated: two levels with the same power, zero, at both.  The
    fitted slope and offset are both zero; the estimator returns NaN as a
    value and reports no DegenerateFitError. *)
Lemma zero_powers_return_nan :
  length [1; 2] = length [0; 0] /\ (2 <= length [1; 2])%nat /\
  (forall y, In y [0; 0] -> y = 0) /\
  ols_slope [1; 2] [0; 0] = 0 /\
  calculate_intercept no_lstsq [1; 2] (map Fin [0; 0]) = Ok NaN /\
  calculate_intercept no_lstsq [1; 2] (map Fin [0; 0])
  <> Err DegenerateFitError.
Proof.
  assert (Hz : forall y, In y [0; 0] -> y = 0).
  { intros y [<- | [<- | []]]; reflexivity. }
  split; [reflexivity |]. split; [simpl; lia |]. split; [exact Hz |].
  split; [now apply (constant_powers_slope 0) |].
  assert (E : calculate_intercept no_lstsq [1; 2] (map Fin [0; 0]) = Ok NaN)
    by exact flat_intercept.
  rewrite E. split; [reflexivity | discriminate].
Qed.

(** C3, amended.  [calculate_intercept] is the fit followed by the NumPy
    quotient [-c[1] / c[0]]: it tests nothing about the slope and has no
    DegenerateFitError.  Whatever the fitting routine computes: an
    exception of [calculate_intercept] is one the fit raised; coefficients
    [(a, b)] returned by the fit give the value [-b / a], whatever [a] is;
    and a slope coefficient that is exactly zero gives a value that is not
    finite, an infinity or NaN, returned like any other.  For equal-length
    sequences of at least two points whose levels are not all equal and
    whose powers are finite, a value is returned, never an exception, and
    it is NaN when all the powers are zero. *)
Theorem calculate_intercept_no_degenerate_check
    (F : list R -> list np_float -> result (np_float * np_float))
    (xs ys : list R) :
  length xs = length ys -> (2 <= length xs)%nat -> levels_vary xs ->
  (exists v, calculate_intercept F xs (map Fin ys) = Ok v) /\
  calculate_intercept F xs (map Fin ys) <> Err DegenerateFitError /\
  ((forall y, In y ys -> y = 0) ->
   calculate_intercept F xs (map Fin ys) = Ok NaN) /\
  (forall ps,
     calculate_intercept F xs ps
     = Further.calculate_intercept_with (polyfit1 F) xs ps) /\
  (forall polyfit ps,
     (forall e, Further.calculate_intercept_with polyfit xs ps = Err e ->
                polyfit xs ps = Err e) /\
     (forall a b, polyfit xs ps = Ok (a, b) ->
                  Further.calculate_intercept_with polyfit xs ps
                  = Ok (np_div (np_neg b) a)) /\
     (forall b, polyfit xs ps = Ok (Fin 0, b) ->
                exists v, Further.calculate_intercept_with polyfit xs ps = Ok v
                          /\ ~ is_finite v)).
Proof.
  intros Hl _ Hv. pose proof (levels_vary_det xs Hv) as Hd.
  split; [| split; [| split; [| split]]].
  - rewrite (calculate_intercept_wellposed F xs ys Hl Hd). eexists. reflexivity.
  - rewrite (calculate_intercept_wellposed F xs ys Hl Hd). discriminate.
  - intros Hz. now apply zero_powers_intercept.
  - intros ps. reflexivity.
  - intros polyfit ps. unfold Further.calculate_intercept_with.
    destruct (polyfit xs ps) as [[a b] | e0]; cbn.
    + split; [discriminate |]. split.
      * intros a' b' E. injection E as <- <-. reflexivity.
      * intros b' E. injection E as -> <-. eexists. split; [reflexivity |].
        apply np_div_zero_divisor.
    + split; [intros e E; injection E as <-; reflexivity |].
      split; discriminate.
Qed.

Lemma calculate_intercept_no_degenerate_check_witness :
  length [1; 2] = length [0; 0] /\ (2 <= length [1; 2])%nat /\
  levels_vary [1; 2] /\ (forall y, In y [0; 0] -> y = 0) /\
  calculate_intercept no_lstsq [1; 2] (map Fin [0; 0]) = Ok NaN.
Proof.
  assert (Hv : levels_vary [1; 2]).
  { exists 1, 2. simpl. repeat split; auto. lra. }
  assert (H2 : (2 <= length [1; 2])%nat) by (simpl; lia).
  assert (Hz : forall y, In y [0; 0] -> y = 0).
  { intros y [<- | [<- | []]]; reflexivity. }
  split; [reflexivity |]. split; [exact H2 |]. split; [exact Hv |].
  split; [exact Hz |].
  destruct (calculate_intercept_no_degenerate_check no_lstsq
              [1; 2] [0; 0] eq_refl H2 Hv) as (_ & _ & Hzero & _).
  exact (Hzero Hz).
Defined.

(** ** Sweep controller: the levels *)




(** ** Sweep controller: parameters *)




(** ** Sweep controller: failures *)

(** C1, as stated: one step against an oscilloscope that does not answer.
    The capture raises, the sweep unwinds with it, and the generator's
    output is still on: the last message it received enabled it. *)
Lemma output_left_on_after_capture_timeout :
  exists w',
    measure_iip2 no_lstsq 1 1 1 freq1 freq2 fs silent_scope
    = (Err VisaIOError, w') /\
    sg_sent w' = [APPLy "SIN" freq1 1 0; OUTP 1 true] /\
    ~ output_off w'.
Proof.
  destruct silent_run as (w' & E & Hs & Hon).
  exists w'. split; [exact E |]. split; [exact Hs |].
  unfold output_off. rewrite Hon. discriminate.
Qed.

(** C1, amended.  [measure_iip2] disables the output with one statement
    placed after the loop, not with a handler.  If [np.linspace] refuses
    [num] nothing is sent and the output is as it was.  If every step
    completes, the output-off command is the last message the generator
    receives and the output is off when the sweep returns or raises later.
    If a step raises, the sweep raises the same exception at once, in the
    state that step left: the output is on and the last message the
    generator received enabled it.  In particular the output is off whenever
    the sweep returns. *)
Theorem output_disabled_only_after_the_loop
    (F : list R -> list np_float -> result (np_float * np_float))
    (start stop : R) (num : Z) (f1 f2 rate : R) (w : world) :
  match sweep_levels start stop num with
  | Err e => measure_iip2 F start stop num f1 f2 rate w = (Err e, w)
  | Ok lv =>
      match sweep_loop f1 f2 rate lv [] w with
      | (Ok ps, w1) =>
          output_off (snd (measure_iip2 F start stop num f1 f2 rate w)) /\
          sg_sent (snd (measure_iip2 F start stop num f1 f2 rate w))
          = sg_sent w1 ++ [OUTP 1 false]
      | (Err e, w1) =>
          measure_iip2 F start stop num f1 f2 rate w = (Err e, w1) /\
          output_on w1 /\
          exists before, sg_sent w1 = before ++ [OUTP 1 true]
      end
  end /\
  (forall t w',
     measure_iip2 F start stop num f1 f2 rate w = (Ok t, w') -> output_off w').
Proof.
  split.
  - rewrite measure_iip2_paths.
    destruct (sweep_levels start stop num) as [lv | e]; [| reflexivity].
    destruct (sweep_loop f1 f2 rate lv [] w) as [[ps | e] w1] eqn:El.
    + cbv zeta. destruct (1 <? length ps)%nat.
      * destruct (calculate_intercept F lv ps); split; reflexivity.
      * split; reflexivity.
    + assert (Hne : lv <> []).
      { intros ->. cbn in El. discriminate El. }
      pose proof (sweep_loop_output_on f1 f2 rate lv [] w Hne) as Hon.
      pose proof (sweep_loop_last_message f1 f2 rate lv [] w Hne) as Hlast.
      rewrite El in Hon, Hlast. cbn [snd] in Hon, Hlast.
      split; [reflexivity |]. split; assumption.
  - intros t w' Hrun.
    destruct (measure_iip2_returns _ _ _ _ _ _ _ _ _ _ Hrun)
      as (lv & ps & w1 & _ & _ & _ & Hw).
    destruct (1 <? length ps)%nat.
    + destruct Hw as (v & _ & ->). reflexivity.
    + subst w'. reflexivity.
Qed.

Lemma output_disabled_only_after_the_loop_witness :
  exists t w',
    measure_iip2 no_lstsq 1 2 2 freq1 freq2 fs two_captures = (Ok t, w') /\
    output_off w'.
Proof.
  destruct completed_run as (w' & E & _).
  exists [PyArray [1; 2]; PyList [Fin 0; Fin 0]], w'. split; [exact E |].
  exact (proj2 (output_disabled_only_after_the_loop no_lstsq 1 2 2
                  freq1 freq2 fs two_captures) _ _ E).
Defined.

(** C2, as stated: three steps, the capture of the second one failing.
    The sweep does not return three points: it raises the capture's
    exception, having configured the generator for two levels only and
    leaving the replies of the third capture unread. *)
Lemma second_capture_failure_aborts_the_sweep :
  exists w',
    measure_iip2 no_lstsq 1 3 3 freq1 freq2 fs second_capture_fails
    = (Err VisaIOError, w') /\
    (forall t, fst (measure_iip2 no_lstsq 1 3 3 freq1 freq2 fs
                      second_capture_fails) <> Ok t) /\
    sg_sent w' = [APPLy "SIN" freq1 1 0; OUTP 1 true;
                  APPLy "SIN" freq1 2 0; OUTP 1 true] /\
    osc_replies w' = [Some two_samples; Some opc_reply].
Proof.
  destruct aborted_run as (w' & E & Hs & _ & Hr & _).
  exists w'. split; [exact E |]. split.
  - intros t. rewrite E. discriminate.
  - split; assumption.
Qed.

(** C2, amended.  A failure in one step is not isolated.  If the steps
    before level [v] complete and the step at [v] raises [e] (its capture or
    its extraction failed), [measure_iip2] raises [e] in the state that step
    left: no point is returned, not even those already measured, the later
    levels are never applied, no fit is attempted and the output stays
    on. *)
Theorem step_failure_propagates
    (F : list R -> list np_float -> result (np_float * np_float))
    (start stop : R) (num : Z) (f1 f2 rate : R) (w w1 w2 : world)
    (before after : list R) (v : R) (ps : list np_float) (e : exn) :
  sweep_levels start stop num = Ok (before ++ v :: after) ->
  sweep_loop f1 f2 rate before [] w = (Ok ps, w1) ->
  sweep_step f1 f2 rate v w1 = (Err e, w2) ->
  measure_iip2 F start stop num f1 f2 rate w = (Err e, w2) /\
  length ps = length before /\
  output_on w2 /\
  sg_sent w2 = sg_sent w1 ++ [APPLy "SIN" f1 v 0; OUTP 1 true].
Proof.
  intros Hlv Hpre Hstep.
  pose proof (sweep_step_generator f1 f2 rate v w1) as Hg.
  rewrite Hstep in Hg. unfold sg_state in Hg. cbn [snd] in Hg.
  injection Hg as Hs Hon _.
  split.
  { rewrite measure_iip2_paths, Hlv, sweep_loop_app, Hpre.
    rewrite sweep_loop_cons, Hstep. reflexivity. }
  split; [exact (sweep_loop_length _ _ _ _ _ _ _ _ Hpre) |].
  split; [exact Hon | exact Hs].
Qed.

Lemma step_failure_propagates_witness :
  sweep_levels 1 3 3 = Ok ([1] ++ 2 :: [3]) /\
  exists w1 w2,
    sweep_loop freq1 freq2 fs [1] [] second_capture_fails = (Ok [Fin 0], w1) /\
    sweep_step freq1 freq2 fs 2 w1 = (Err VisaIOError, w2) /\
    measure_iip2 no_lstsq 1 3 3 freq1 freq2 fs second_capture_fails
    = (Err VisaIOError, w2) /\
    output_on w2.
Proof.
  split; [exact levels_1_3_3 |].
  destruct aborted_run_steps as (w1 & w2 & E1 & E2 & _).
  exists w1, w2. split; [exact E1 |]. split; [exact E2 |].
  destruct (step_failure_propagates no_lstsq 1 3 3 freq1 freq2 fs
              second_capture_fails w1 w2 [1] [3] 2 [Fin 0] VisaIOError
              levels_1_3_3 E1 E2) as (Hrun & _ & Hon & _).
  split; [exact Hrun | exact Hon].
Defined.

(** ** Sweep controller: the result *)

(** C9, as stated: a completed sweep of two steps, both with a product
    power.  The returned tuple has the levels and the products and no
    scalar; the intercept went to the console. *)
Lemma completed_sweep_returns_no_intercept :
  exists w',
    measure_iip2 no_lstsq 1 2 2 freq1 freq2 fs two_captures
    = (Ok [PyArray [1; 2]; PyList [Fin 0; Fin 0]], w') /\
    (2 <= length [Fin 0; Fin 0])%nat /\
    calculate_intercept no_lstsq [1; 2] [Fin 0; Fin 0] = Ok NaN /\
    (forall v, ~ includes_scalar [PyArray [1; 2]; PyList [Fin 0; Fin 0]] v) /\
    stdout w' = [OutVoltage 1; OutVoltage 2; OutIIP2 NaN].
Proof.
  destruct completed_run as (w' & E & Hout & _).
  exists w'. split; [exact E |]. split; [simpl; lia |].
  split; [exact flat_intercept |]. split; [| exact Hout].
  intros v [H | [H | []]]; discriminate H.
Qed.

(** C9, amended.  Every completed sweep returns exactly two components,
    the array of levels and the list of product powers, one per level, and
    no intercept, whether or not one was computed.  When there are at least
    two products the intercept is computed by [calculate_intercept] over all
    levels and products and only printed; otherwise nothing more is
    printed. *)
Theorem intercept_is_printed_not_returned
    (F : list R -> list np_float -> result (np_float * np_float))
    (start stop : R) (num : Z) (f1 f2 rate : R) (w w' : world) (t : pytuple) :
  measure_iip2 F start stop num f1 f2 rate w = (Ok t, w') ->
  exists lv ps w1,
    sweep_levels start stop num = Ok lv /\
    sweep_loop f1 f2 rate lv [] w = (Ok ps, w1) /\
    t = [PyArray lv; PyList ps] /\
    length ps = length lv /\
    (forall v, ~ includes_scalar t v) /\
    if (1 <? length ps)%nat then
      exists v, calculate_intercept F lv ps = Ok v /\
                stdout w' = stdout w1 ++ [OutIIP2 v]
    else stdout w' = stdout w1.
Proof.
  intros Hrun.
  destruct (measure_iip2_returns _ _ _ _ _ _ _ _ _ _ Hrun)
    as (lv & ps & w1 & Elv & El & -> & Hw).
  exists lv, ps, w1. split; [exact Elv |]. split; [exact El |].
  split; [reflexivity |].
  split; [exact (sweep_loop_length _ _ _ _ _ _ _ _ El) |]. split.
  { intros v [H | [H | []]]; discriminate H. }
  destruct (1 <? length ps)%nat.
  - destruct Hw as (v & Ev & ->). exists v. split; [exact Ev |].
    now rewrite stdout_printed, stdout_react.
  - subst w'. now rewrite stdout_react.
Qed.

Lemma intercept_is_printed_not_returned_witness :
  exists w',
    measure_iip2 no_lstsq 1 2 2 freq1 freq2 fs two_captures
    = (Ok [PyArray [1; 2]; PyList [Fin 0; Fin 0]], w') /\
    forall v, ~ includes_scalar [PyArray [1; 2]; PyList [Fin 0; Fin 0]] v.
Proof.
  destruct completed_run as (w' & E & _).
  exists w'. split; [exact E |].
  destruct (intercept_is_printed_not_returned no_lstsq 1 2 2 freq1 freq2 fs
              two_captures w' _ E) as (lv & ps & w1 & _ & _ & Ht & _ & Hno & _).
  exact Hno.
Defined.


(** * Further properties of the code *)

Import Further.

(** ** [calculate_second_order_product] *)

Lemma calculate_second_order_product_no_rate (x : R) (t : list R) (f1 f2 : R) :
  calculate_second_order_product (x :: t) f1 f2 0 = Err ZeroDivisionError.
Proof.
  unfold calculate_second_order_product. cbn [fft rbind].
  rewrite py_div_zero. reflexivity.
Qed.

(** X1.  The exceptions of the extractor and their order: an empty
    waveform is a ValueError (the transform refuses it) whatever the sample
    rate; a non-empty waveform with a zero sample rate is a
    ZeroDivisionError; a single sample with a usable rate is a ValueError;
    nothing else is ever raised. *)
Theorem extractor_exceptions (w : list R) (f1 f2 rate : R) (e : exn) :
  calculate_second_order_product w f1 f2 rate = Err e <->
  (w = [] /\ e = ValueError) \/
  (w <> [] /\ rate = 0 /\ e = ZeroDivisionError) \/
  (length w = 1%nat /\ rate <> 0 /\ e = ValueError).
Proof.
  split.
  - intros H. destruct w as [| x [| y t]].
    + rewrite calculate_second_order_product_empty in H.
      left. split; [reflexivity | congruence].
    + rewrite calculate_second_order_product_single in H.
      destruct (Req_dec_T rate 0) as [Hz | Hnz].
      * right; left. repeat split; [discriminate | exact Hz | congruence].
      * right; right. repeat split; [exact Hnz | congruence].
    + destruct (Req_dec_T rate 0) as [Hz | Hnz].
      * subst rate. rewrite calculate_second_order_product_no_rate in H.
        right; left. repeat split; [discriminate | congruence].
      * destruct (calculate_second_order_product_ok (x :: y :: t) f1 f2 rate)
          as [v Hv]; [simpl; lia | exact Hnz |]. congruence.
  - intros [[-> ->] | [(Hne & -> & ->) | (Hl & Hr & ->)]].
    + apply calculate_second_order_product_empty.
    + destruct w as [| x t]; [congruence |].
      apply calculate_second_order_product_no_rate.
    + destruct w as [| x [| y t]]; simpl in Hl; try discriminate.
      rewrite calculate_second_order_product_single.
      destruct (Req_dec_T rate 0); [contradiction | reflexivity].
Qed.

Lemma extractor_exceptions_witness :
  calculate_second_order_product [1; 0] freq1 freq2 0 = Err ZeroDivisionError.
Proof.
  apply (proj2 (extractor_exceptions [1; 0] freq1 freq2 0 ZeroDivisionError)).
  right; left. repeat split. discriminate.
Defined.

Lemma bin_power_nonneg (w : list R) (M k : nat) : 0 <= bin_power w M k.
Proof. unfold bin_power. apply pow2_ge_0. Qed.

Lemma reading_of_power (P : R) :
  0 <= P ->
  np_scale 10 (np_log10 P)
  = if Req_dec_T P 0 then NInf else Fin (10 * (ln P / ln 10)).
Proof.
  intros HP. unfold np_log10.
  destruct (Req_dec_T P 0) as [Hz | Hnz].
  - cbn [np_scale]. unfold nonneg_sign.
    destruct (Rle_dec 0 10) as [_ | H]; [reflexivity | exfalso; lra].
  - destruct (Rlt_dec P 0) as [Hneg | _]; [exfalso; lra | reflexivity].
Qed.

(** A waveform on which the extractor returns has at least two samples,
    and the sample rate is not zero. *)
Lemma returned_reading_conditions
    (w : list R) (f1 f2 rate : R) (v : np_float) :
  calculate_second_order_product w f1 f2 rate = Ok v ->
  (2 <= length w)%nat /\ rate <> 0.
Proof.
  intros H.
  pose proof (calculate_second_order_product_needs_two _ _ _ _ _ H) as Hl.
  split; [exact Hl |].
  intros ->. destruct w as [| x t]; [simpl in Hl; lia |].
  rewrite calculate_second_order_product_no_rate in H. discriminate.
Qed.

(** What the extractor raises on a waveform that is not empty. *)
Lemma extractor_error_nonempty (w : list R) (f1 f2 rate : R) (e : exn) :
  w <> [] ->
  calculate_second_order_product w f1 f2 rate = Err e ->
  (rate = 0 /\ e = ZeroDivisionError) \/
  (length w = 1%nat /\ rate <> 0 /\ e = ValueError).
Proof.
  intros Hne H. destruct w as [| x [| y t]]; [congruence | |].
  - rewrite calculate_second_order_product_single in H.
    destruct (Req_dec_T rate 0) as [Hz | Hnz].
    + left. split; [exact Hz | congruence].
    + right. repeat split; [exact Hnz | congruence].
  - destruct (Req_dec_T rate 0) as [Hz | Hnz].
    + subst rate. rewrite calculate_second_order_product_no_rate in H.
      left. split; [reflexivity | congruence].
    + destruct (calculate_second_order_product_ok (x :: y :: t) f1 f2 rate)
        as [v Hv]; [simpl; lia | exact Hnz |]. congruence.
Qed.

Lemma dft_sum_silent (N k : nat) (xs : list R) :
  (forall x, In x xs -> x = 0) -> forall n, dft_sum N k n xs = (0, 0).
Proof.
  induction xs as [| x t IH]; intros Hz n; [reflexivity |].
  cbn [dft_sum]. rewrite IH by (intros y Hy; apply Hz; now right).
  rewrite (Hz x (or_introl eq_refl)). unfold twiddle, cadd. cbn [fst snd].
  f_equal; ring.
Qed.

(** X3.  A silent capture (every sample zero, at least two of them) reads
    [-inf]: no exception is raised for it. *)
Theorem silent_capture_reads_minus_infinity (w : list R) (f1 f2 rate : R) :
  (2 <= length w)%nat -> rate <> 0 -> (forall x, In x w -> x = 0) ->
  calculate_second_order_product w f1 f2 rate = Ok NInf.
Proof.
  intros Hl Hr Hz.
  destruct (calculate_second_order_product_value w f1 f2 rate Hl Hr)
    as (ks & kd & _ & _ & _ & _ & E).
  assert (Hp : forall k, bin_power w (length w / 2) k = 0).
  { intros k. unfold bin_power, dft_bin, cabs.
    rewrite (dft_sum_silent _ _ _ Hz). cbn [fst snd].
    replace (0 * 0 + 0 * 0) with 0 by ring. rewrite sqrt_0.
    unfold Rdiv. rewrite Rmult_0_l. simpl. ring. }
  rewrite E, !Hp, reading_of_power by (rewrite Rmax_left; lra).
  rewrite Rmax_left by lra.
  destruct (Req_dec_T 0 0) as [_ | H]; [reflexivity | now elim H].
Qed.

Lemma silent_capture_reads_minus_infinity_witness :
  (2 <= length [0%R; 0%R; 0%R])%nat /\ fs <> 0 /\
  calculate_second_order_product [0; 0; 0] freq1 freq2 fs = Ok NInf.
Proof.
  assert (Hl : (2 <= length [0%R; 0%R; 0%R])%nat) by (simpl; lia).
  split; [exact Hl |]. split; [exact default_rate_nonzero |].
  apply (silent_capture_reads_minus_infinity _ _ _ _ Hl default_rate_nonzero).
  intros x [<- | [<- | [<- | []]]]; reflexivity.
Defined.

Lemma first_nearest_unique (N M : nat) (rate t : R) (k k' : nat) :
  nearest_bin N M rate t k ->
  (forall j, (j < k)%nat ->
     Rabs (bin_frequency N rate k - t) < Rabs (bin_frequency N rate j - t)) ->
  nearest_bin N M rate t k' ->
  (forall j, (j < k')%nat ->
     Rabs (bin_frequency N rate k' - t) < Rabs (bin_frequency N rate j - t)) ->
  k = k'.
Proof.
  intros [Hk Hmin] Hfirst [Hk' Hmin'] Hfirst'.
  destruct (Nat.lt_trichotomy k k') as [Hlt | [Heq | Hgt]]; [| exact Heq |].
  - specialize (Hfirst' k Hlt). specialize (Hmin k' Hk'). lra.
  - specialize (Hfirst k' Hgt). specialize (Hmin' k Hk). lra.
Qed.

Lemma dft_sum_gain (c : R) (N k : nat) (xs : list R) :
  forall n,
    dft_sum N k n (map (Rmult c) xs)
    = (c * fst (dft_sum N k n xs), c * snd (dft_sum N k n xs)).
Proof.
  induction xs as [| x t IH]; intros n.
  - cbn. f_equal; ring.
  - cbn [map dft_sum]. rewrite IH. unfold twiddle, cadd. cbn [fst snd].
    f_equal; ring.
Qed.

Lemma bin_power_gain (c : R) (w : list R) (M k : nat) :
  bin_power (map (Rmult c) w) M k = c * c * bin_power w M k.
Proof.
  unfold bin_power, dft_bin, cabs. rewrite length_map, dft_sum_gain.
  cbn [fst snd].
  set (a := fst (dft_sum (length w) k 0 w)).
  set (b := snd (dft_sum (length w) k 0 w)).
  replace (c * a * (c * a) + c * b * (c * b))
    with (Rsqr c * (a * a + b * b)) by (unfold Rsqr; ring).
  assert (Hab : 0 <= a * a + b * b) by nra.
  rewrite sqrt_mult by (assumption || apply Rle_0_sqr).
  rewrite sqrt_Rsqr_abs.
  replace ((Rabs c * sqrt (a * a + b * b) / INR M) ^ 2)
    with (Rabs c ^ 2 * (sqrt (a * a + b * b) / INR M) ^ 2)
    by (unfold Rdiv; ring).
  rewrite pow2_abs. ring.
Qed.

Lemma reading_gain (c P : R) :
  c <> 0 -> 0 <= P ->
  np_scale 10 (np_log10 (c * c * P))
  = shift_db (gain_db c) (np_scale 10 (np_log10 P)).
Proof.
  intros Hc HP.
  assert (Hcc : 0 < c * c) by nra.
  rewrite !reading_of_power by nra.
  destruct (Req_dec_T P 0) as [Hz | Hnz].
  - destruct (Req_dec_T (c * c * P) 0) as [_ | H]; [reflexivity |].
    exfalso. apply H. rewrite Hz. ring.
  - destruct (Req_dec_T (c * c * P) 0) as [H | _].
    + exfalso. apply Rmult_integral in H. destruct H; [lra | contradiction].
    + cbn [shift_db]. f_equal. unfold gain_db.
      assert (Habs : 0 < Rabs c) by now apply Rabs_pos_lt.
      replace (c * c) with (Rabs c * Rabs c)
        by (rewrite <- Rabs_mult; apply Rabs_right; lra).
      rewrite !ln_mult by nra. unfold Rdiv. ring.
Qed.

(** X4.  A gain [c] on the waveform (every sample multiplied by [c <> 0])
    moves a finite reading by [20 log10 |c|] decibels and leaves [-inf] and
    every exception as they are: the bins that are read depend on the number
    of samples, the tones and the rate, never on the samples. *)
Theorem gain_shifts_reading (c : R) (w : list R) (f1 f2 rate : R) :
  c <> 0 ->
  calculate_second_order_product (map (Rmult c) w) f1 f2 rate
  = match calculate_second_order_product w f1 f2 rate with
    | Ok v => Ok (shift_db (gain_db c) v)
    | Err e => Err e
    end.
Proof.
  intros Hc.
  destruct (calculate_second_order_product w f1 f2 rate) as [v | e] eqn:E.
  - destruct (returned_reading_conditions _ _ _ _ _ E) as (Hl & Hr).
    destruct (calculate_second_order_product_value w f1 f2 rate Hl Hr)
      as (ks & kd & Hs & Hfs & Hd & Hfd & Ew).
    assert (Hl' : (2 <= length (map (Rmult c) w))%nat) by now rewrite length_map.
    destruct (calculate_second_order_product_value
                (map (Rmult c) w) f1 f2 rate Hl' Hr)
      as (ks' & kd' & Hs' & Hfs' & Hd' & Hfd' & Ew').
    rewrite length_map in Hs', Hfs', Hd', Hfd', Ew'.
    assert (ks' = ks) by (eapply first_nearest_unique; eassumption).
    assert (kd' = kd) by (eapply first_nearest_unique; eassumption).
    subst ks' kd'. rewrite Ew', !bin_power_gain.
    rewrite RmaxRmult by nra.
    rewrite reading_gain.
    + rewrite E in Ew. injection Ew as ->. reflexivity.
    + exact Hc.
    + eapply Rle_trans;
        [apply (bin_power_nonneg w (length w / 2) ks) | apply Rmax_l].
  - destruct w as [| x [| y t]].
    + exact E.
    + cbn [map]. rewrite calculate_second_order_product_single in E |- *.
      exact E.
    + assert (Hne : x :: y :: t <> []) by discriminate.
      destruct (extractor_error_nonempty _ _ _ _ _ Hne E)
        as [[-> ->] | (Hl1 & _)]; [| simpl in Hl1; discriminate Hl1].
      cbn [map]. apply calculate_second_order_product_no_rate.
Qed.

Lemma gain_shifts_reading_witness :
  2 <> 0 /\
  calculate_second_order_product (map (Rmult 2) [1; 0]) freq1 freq2 fs
  = Ok (Fin (0 + gain_db 2)).
Proof.
  assert (Hc : 2 <> 0) by lra. split; [exact Hc |].
  rewrite (gain_shifts_reading 2 [1; 0] freq1 freq2 fs Hc).
  rewrite (two_samples_product freq1 freq2 fs default_rate_nonzero).
  reflexivity.
Defined.

Lemma bin_frequency_increasing (N : nat) (rate : R) (j k : nat) :
  (0 < N)%nat -> 0 < rate -> (j < k)%nat ->
  bin_frequency N rate j < bin_frequency N rate k.
Proof.
  intros HN Hr Hjk. unfold bin_frequency.
  assert (HNr : 0 < INR N) by (apply lt_0_INR; exact HN).
  apply lt_INR in Hjk.
  apply Rmult_lt_compat_r; [now apply Rinv_0_lt_compat | nra].
Qed.

(** The retained bins lie strictly below half the sample rate. *)
Lemma retained_below_nyquist (N : nat) (rate : R) (k : nat) :
  0 < rate -> (k < N / 2)%nat -> bin_frequency N rate k < rate / 2.
Proof.
  intros Hr Hk. unfold bin_frequency.
  assert (H2 : (2 * k < N)%nat).
  { pose proof (Nat.div_mod_eq N 2). pose proof (Nat.mod_upper_bound N 2).
    lia. }
  assert (HN : 0 < INR N) by (apply lt_0_INR; lia).
  apply lt_INR in H2. rewrite mult_INR in H2. simpl in H2.
  apply (Rmult_lt_reg_r (INR N)); [exact HN |].
  unfold Rdiv. rewrite Rmult_assoc, Rinv_l by lra. nra.
Qed.

(** X5.  Targets outside the retained band are read at its edges, without
    any error.  With a positive sample rate, a sum frequency at or above
    half the sample rate is read at the last retained bin, and equal tones
    have their difference product read at bin 0 (DC). *)
Theorem out_of_band_targets_read_edge_bins (w : list R) (f1 f2 rate : R) :
  (2 <= length w)%nat -> 0 < rate ->
  exists k_sum k_diff,
    calculate_second_order_product w f1 f2 rate
    = Ok (np_scale 10
            (np_log10 (Rmax (bin_power w (length w / 2) k_sum)
                            (bin_power w (length w / 2) k_diff)))) /\
    (k_sum < length w / 2)%nat /\ (k_diff < length w / 2)%nat /\
    (rate / 2 <= f1 + f2 -> k_sum = (length w / 2 - 1)%nat) /\
    (f1 = f2 -> k_diff = 0%nat).
Proof.
  intros Hl Hr.
  assert (Hr0 : rate <> 0) by lra.
  destruct (calculate_second_order_product_value w f1 f2 rate Hl Hr0)
    as (ks & kd & [Hks Hmin_s] & _ & [Hkd Hmin_d] & Hfirst_d & E).
  set (N := length w) in *. set (M := (N / 2)%nat) in *.
  assert (HN : (0 < N)%nat) by (unfold N; lia).
  exists ks, kd. split; [exact E |]. split; [exact Hks |]. split; [exact Hkd |].
  split.
  - intros Hout.
    destruct (Nat.eq_dec ks (M - 1)) as [Heq | Hne]; [exact Heq | exfalso].
    assert (Hlt : (ks < M - 1)%nat) by lia.
    pose proof (bin_frequency_increasing N rate ks (M - 1) HN Hr Hlt) as Hinc.
    pose proof (retained_below_nyquist N rate (M - 1) Hr ltac:(unfold M; lia))
      as Hny.
    specialize (Hmin_s (M - 1)%nat ltac:(lia)).
    rewrite !Rabs_left1 in Hmin_s by lra. lra.
  - intros ->.
    destruct (Nat.eq_dec kd 0) as [Heq | Hne]; [exact Heq | exfalso].
    specialize (Hfirst_d 0%nat ltac:(lia)).
    replace (f2 - f2) with 0 in Hfirst_d by ring.
    rewrite Rabs_R0 in Hfirst_d.
    unfold bin_frequency in Hfirst_d at 2. simpl in Hfirst_d.
    replace (0 * rate / INR N - 0) with 0 in Hfirst_d
      by (unfold Rdiv; ring).
    rewrite Rabs_R0 in Hfirst_d.
    pose proof (Rabs_pos (bin_frequency N rate kd - 0)). lra.
Qed.

Lemma out_of_band_targets_read_edge_bins_witness :
  (2 <= length [1%R; 0%R; 0%R; 0%R])%nat /\ 0 < fs /\ fs / 2 <= freq1 + freq2 /\
  exists k_sum k_diff,
    calculate_second_order_product [1; 0; 0; 0] freq1 freq2 fs
    = Ok (np_scale 10
            (np_log10 (Rmax (bin_power [1; 0; 0; 0] 2 k_sum)
                            (bin_power [1; 0; 0; 0] 2 k_diff)))) /\
    k_sum = 1%nat.
Proof.
  assert (Hl : (2 <= length [1%R; 0%R; 0%R; 0%R])%nat) by (simpl; lia).
  assert (Hr : 0 < fs) by (unfold fs; lra).
  assert (Hout : fs / 2 <= freq1 + freq2) by (unfold fs, freq1, freq2; lra).
  split; [exact Hl |]. split; [exact Hr |]. split; [exact Hout |].
  destruct (out_of_band_targets_read_edge_bins [1; 0; 0; 0] freq1 freq2 fs Hl Hr)
    as (ks & kd & E & _ & _ & Hs & _).
  exists ks, kd. split; [exact E | exact (Hs Hout)].
Defined.


(** ** [calculate_intercept] *)

Lemma ssr_nonneg (xs ys : list R) (a b : R) : 0 <= ssr xs ys a b.
Proof.
  unfold ssr. induction (combine xs ys) as [| p t IH]; cbn [map sum]; [lra |].
  pose proof (pow2_ge_0 (snd p - (a * fst p + b))) as H. lra.
Qed.

Lemma ssr_on_line (a b : R) (xs : list R) : ssr xs (on_line a b xs) a b = 0.
Proof.
  unfold ssr, on_line. induction xs as [| x t IH]; [reflexivity |].
  cbn [map combine sum fst snd]. rewrite IH. ring.
Qed.

Lemma levels_vary_affine (c d : R) (xs : list R) :
  c <> 0 -> levels_vary xs -> levels_vary (affine c d xs).
Proof.
  intros Hc (x & x' & Hx & Hx' & Hne).
  exists (c * x + d), (c * x' + d). unfold affine.
  split; [now apply (in_map (fun y => c * y + d)) |].
  split; [now apply (in_map (fun y => c * y + d)) |].
  intros H. apply Hne. apply (Rmult_eq_reg_l c); [lra | exact Hc].
Qed.

(** A finite intercept comes from a non-zero slope. *)
Lemma finite_intercept_slope
    (F : list R -> list np_float -> result (np_float * np_float))
    (xs ys : list R) (r : R) :
  length xs = length ys -> levels_vary xs ->
  calculate_intercept F xs (map Fin ys) = Ok (Fin r) ->
  ols_slope xs ys <> 0 /\ r = - ols_offset xs ys / ols_slope xs ys.
Proof.
  intros Hl Hv H. pose proof (levels_vary_det xs Hv) as Hd.
  rewrite (calculate_intercept_wellposed F xs ys Hl Hd) in H.
  destruct (Req_dec_T (ols_slope xs ys) 0) as [Hz | Hnz].
  - exfalso. rewrite Hz in H.
    pose proof (np_div_by_zero (- ols_offset xs ys)) as Hnf.
    assert (E : np_div (Fin (- ols_offset xs ys)) (Fin 0) = Fin r)
      by congruence.
    rewrite E in Hnf. apply Hnf. exact I.
  - rewrite np_div_finite in H by exact Hnz. injection H as <-.
    split; [exact Hnz | reflexivity].
Qed.

(** The specification's example, with its powers written out. *)
Lemma example_intercept :
  calculate_intercept no_lstsq [1; 2; 3; 4] (map Fin [-9; -6; -3; 0])
  = Ok (Fin 4).
Proof.
  destruct example_fit as (Hd & Hs & Ho).
  replace [-9; -6; -3; 0]
    with [3 * 1 - 12; 3 * 2 - 12; 3 * 3 - 12; 3 * 4 - 12]
    by (repeat f_equal; lra).
  rewrite calculate_intercept_wellposed by (reflexivity || exact Hd).
  rewrite Hs, Ho, np_div_finite by lra. do 2 f_equal. field.
Qed.

(** X6.  Points that lie exactly on a line [a * level + b] with [a <> 0],
    at levels that are not all equal, give the intercept [-b / a] of that
    line, however many they are. *)
Theorem exact_line_intercept
    (F : list R -> list np_float -> result (np_float * np_float))
    (xs : list R) (a b : R) :
  levels_vary xs -> a <> 0 ->
  calculate_intercept F xs (map Fin (on_line a b xs)) = Ok (Fin (- b / a)).
Proof.
  intros Hv Ha. pose proof (levels_vary_det xs Hv) as Hd.
  assert (Hl : length xs = length (on_line a b xs))
    by (unfold on_line; now rewrite length_map).
  assert (Hols : is_ols xs (on_line a b xs) a b).
  { intros a' b'. rewrite ssr_on_line. apply ssr_nonneg. }
  destruct (ols_unique xs (on_line a b xs) Hl Hd a b Hols) as [Es Eo].
  rewrite (calculate_intercept_wellposed F xs _ Hl Hd), <- Es, <- Eo.
  now rewrite np_div_finite.
Qed.

Lemma exact_line_intercept_witness :
  levels_vary [1; 2; 5] /\ 2 <> 0 /\
  calculate_intercept no_lstsq [1; 2; 5] (map Fin (on_line 2 (-6) [1; 2; 5]))
  = Ok (Fin (- (-6) / 2)).
Proof.
  assert (Hv : levels_vary [1; 2; 5]).
  { exists 1, 2. simpl. repeat split; auto. lra. }
  assert (Ha : 2 <> 0) by lra.
  split; [exact Hv |]. split; [exact Ha |].
  exact (exact_line_intercept no_lstsq [1; 2; 5] 2 (-6) Hv Ha).
Defined.

Lemma ssr_affine (c d : R) (xs : list R) :
  forall (ys : list R) (a b : R),
    ssr (affine c d xs) ys a b = ssr xs ys (a * c) (a * d + b).
Proof.
  unfold ssr, affine. induction xs as [| x t IH]; intros ys a b; [reflexivity |].
  destruct ys as [| y u]; [reflexivity |].
  cbn [map combine sum fst snd]. rewrite IH. ring.
Qed.

(** X7.  Re-expressing the levels in another unit and origin
    ([level' = c * level + d], [c <> 0]) re-expresses a finite intercept the
    same way: it becomes [c * intercept + d]. *)
Theorem intercept_follows_level_units
    (F : list R -> list np_float -> result (np_float * np_float))
    (xs ys : list R) (c d r : R) :
  length xs = length ys -> levels_vary xs -> c <> 0 ->
  calculate_intercept F xs (map Fin ys) = Ok (Fin r) ->
  calculate_intercept F (affine c d xs) (map Fin ys) = Ok (Fin (c * r + d)).
Proof.
  intros Hl Hv Hc Hr.
  destruct (finite_intercept_slope F xs ys r Hl Hv Hr) as [Hs ->].
  pose proof (levels_vary_det xs Hv) as Hd.
  set (a := ols_slope xs ys) in *. set (b := ols_offset xs ys) in *.
  assert (Hl' : length (affine c d xs) = length ys)
    by (unfold affine; now rewrite length_map).
  pose proof (levels_vary_det _ (levels_vary_affine c d xs Hc Hv)) as Hd'.
  assert (Hols : is_ols (affine c d xs) ys (a / c) (b - a * d / c)).
  { intros a' b'. rewrite !ssr_affine.
    replace (a / c * c) with a by (field; exact Hc).
    replace (a / c * d + (b - a * d / c)) with b by (field; exact Hc).
    apply (ols_minimises xs ys Hl Hd). }
  destruct (ols_unique _ ys Hl' Hd' _ _ Hols) as [Es Eo].
  rewrite (calculate_intercept_wellposed F _ ys Hl' Hd'), <- Es, <- Eo.
  rewrite np_div_finite.
  - do 2 f_equal. field. split; assumption.
  - unfold Rdiv. apply Rmult_integral_contrapositive_currified;
      [exact Hs | now apply Rinv_neq_0_compat].
Qed.

Lemma intercept_follows_level_units_witness :
  length [1; 2; 3; 4] = length [-9; -6; -3; 0] /\
  levels_vary [1; 2; 3; 4] /\ 1000 <> 0 /\
  calculate_intercept no_lstsq [1; 2; 3; 4] (map Fin [-9; -6; -3; 0])
  = Ok (Fin 4) /\
  calculate_intercept no_lstsq (affine 1000 0 [1; 2; 3; 4])
    (map Fin [-9; -6; -3; 0])
  = Ok (Fin (1000 * 4 + 0)).
Proof.
  assert (Hv : levels_vary [1; 2; 3; 4]).
  { exists 1, 2. simpl. repeat split; auto. lra. }
  assert (Hc : 1000 <> 0) by lra.
  pose proof example_intercept as E.
  split; [reflexivity |]. split; [exact Hv |]. split; [exact Hc |].
  split; [exact E |].
  exact (intercept_follows_level_units no_lstsq [1; 2; 3; 4] [-9; -6; -3; 0]
           1000 0 4 eq_refl Hv Hc E).
Defined.

Lemma ssr_scaled_powers (c : R) (xs : list R) :
  forall (ys : list R) (a b : R),
    ssr xs (map (Rmult c) ys) (c * a) (c * b) = c * c * ssr xs ys a b.
Proof.
  unfold ssr. induction xs as [| x t IH]; intros ys a b; [simpl; ring |].
  destruct ys as [| y u]; [simpl; ring |].
  cbn [map combine sum fst snd]. rewrite IH. ring.
Qed.

(** X8.  Multiplying every power by the same factor [c <> 0] leaves a
    finite intercept unchanged: the zero crossing of the fitted line does
    not depend on the scale of the power axis. *)
Theorem intercept_ignores_power_scale
    (F : list R -> list np_float -> result (np_float * np_float))
    (xs ys : list R) (c r : R) :
  length xs = length ys -> levels_vary xs -> c <> 0 ->
  calculate_intercept F xs (map Fin ys) = Ok (Fin r) ->
  calculate_intercept F xs (map Fin (map (Rmult c) ys)) = Ok (Fin r).
Proof.
  intros Hl Hv Hc Hr.
  destruct (finite_intercept_slope F xs ys r Hl Hv Hr) as [Hs ->].
  pose proof (levels_vary_det xs Hv) as Hd.
  set (a := ols_slope xs ys) in *. set (b := ols_offset xs ys) in *.
  assert (Hl' : length xs = length (map (Rmult c) ys))
    by now rewrite length_map.
  assert (Hols : is_ols xs (map (Rmult c) ys) (c * a) (c * b)).
  { intros a' b'.
    replace a' with (c * (a' / c)) by (field; exact Hc).
    replace b' with (c * (b' / c)) by (field; exact Hc).
    rewrite !ssr_scaled_powers.
    pose proof (ols_minimises xs ys Hl Hd (a' / c) (b' / c)) as Hmin.
    fold a b in Hmin. assert (0 < c * c) by nra. nra. }
  destruct (ols_unique xs _ Hl' Hd _ _ Hols) as [Es Eo].
  rewrite (calculate_intercept_wellposed F xs _ Hl' Hd), <- Es, <- Eo.
  rewrite np_div_finite.
  - do 2 f_equal. field. split; assumption.
  - now apply Rmult_integral_contrapositive_currified.
Qed.

Lemma intercept_ignores_power_scale_witness :
  length [1; 2; 3; 4] = length [-9; -6; -3; 0] /\
  levels_vary [1; 2; 3; 4] /\ 10 <> 0 /\
  calculate_intercept no_lstsq [1; 2; 3; 4] (map Fin [-9; -6; -3; 0])
  = Ok (Fin 4) /\
  calculate_intercept no_lstsq [1; 2; 3; 4]
    (map Fin (map (Rmult 10) [-9; -6; -3; 0]))
  = Ok (Fin 4).
Proof.
  assert (Hv : levels_vary [1; 2; 3; 4]).
  { exists 1, 2. simpl. repeat split; auto. lra. }
  assert (Hc : 10 <> 0) by lra.
  pose proof example_intercept as E.
  split; [reflexivity |]. split; [exact Hv |]. split; [exact Hc |].
  split; [exact E |].
  exact (intercept_ignores_power_scale no_lstsq [1; 2; 3; 4]
           [-9; -6; -3; 0] 10 4 eq_refl Hv Hc E).
Defined.

Lemma sum_permutation (l l' : list R) : Permutation l l' -> sum l = sum l'.
Proof.
  induction 1 as [| x l l' _ IH | x y l | l l' l'' _ IH1 _ IH2]; simpl;
    [reflexivity | rewrite IH; reflexivity | ring | congruence].
Qed.

Lemma combine_fst_snd {A B : Type} (ps : list (A * B)) :
  combine (map fst ps) (map snd ps) = ps.
Proof.
  induction ps as [| [a b] t IH]; [reflexivity |]. simpl. now rewrite IH.
Qed.

Lemma fit_sums_permutation (ps ps' : list (R * R)) :
  Permutation ps ps' ->
  normal_det (map fst ps) = normal_det (map fst ps') /\
  ols_slope (map fst ps) (map snd ps) = ols_slope (map fst ps') (map snd ps') /\
  ols_offset (map fst ps) (map snd ps)
  = ols_offset (map fst ps') (map snd ps').
Proof.
  intros Hp.
  assert (Hx : sum (map fst ps) = sum (map fst ps'))
    by (apply sum_permutation; now apply Permutation_map).
  assert (Hy : sum (map snd ps) = sum (map snd ps'))
    by (apply sum_permutation; now apply Permutation_map).
  assert (Hxx : sum_sq (map fst ps) = sum_sq (map fst ps'))
    by (unfold sum_sq; apply sum_permutation; now do 2 apply Permutation_map).
  assert (Hxy : sum_xy (map fst ps) (map snd ps)
                = sum_xy (map fst ps') (map snd ps'))
    by (unfold sum_xy; rewrite !combine_fst_snd; apply sum_permutation;
        now apply Permutation_map).
  assert (Hn : length (map fst ps) = length (map fst ps'))
    by (rewrite !length_map; now apply Permutation_length).
  assert (Hd : normal_det (map fst ps) = normal_det (map fst ps'))
    by (unfold normal_det; now rewrite Hn, Hxx, Hx).
  assert (Hs : ols_slope (map fst ps) (map snd ps)
               = ols_slope (map fst ps') (map snd ps'))
    by (unfold ols_slope; now rewrite Hn, Hxy, Hx, Hy, Hd).
  split; [exact Hd |]. split; [exact Hs |].
  unfold ols_offset. now rewrite Hs, Hn, Hx, Hy.
Qed.

(** X9.  The intercept does not depend on the order of the points: for
    levels that are not all equal, any rearrangement of the (level, power)
    pairs gives the same result. *)
Theorem intercept_ignores_point_order
    (F : list R -> list np_float -> result (np_float * np_float))
    (ps ps' : list (R * R)) :
  Permutation ps ps' -> levels_vary (map fst ps) ->
  calculate_intercept F (map fst ps') (map Fin (map snd ps'))
  = calculate_intercept F (map fst ps) (map Fin (map snd ps)).
Proof.
  intros Hp Hv. pose proof (levels_vary_det _ Hv) as Hd.
  destruct (fit_sums_permutation ps ps' Hp) as (Ed & Es & Eo).
  rewrite !calculate_intercept_wellposed;
    try (rewrite !length_map; reflexivity);
    [now rewrite Es, Eo | exact Hd | now rewrite <- Ed].
Qed.

Lemma intercept_ignores_point_order_witness :
  Permutation [(1, 5); (2, 7); (4, 11)] [(4, 11); (1, 5); (2, 7)] /\
  levels_vary (map fst [(1, 5); (2, 7); (4, 11)]) /\
  calculate_intercept no_lstsq (map fst [(4, 11); (1, 5); (2, 7)])
    (map Fin (map snd [(4, 11); (1, 5); (2, 7)]))
  = calculate_intercept no_lstsq (map fst [(1, 5); (2, 7); (4, 11)])
      (map Fin (map snd [(1, 5); (2, 7); (4, 11)])).
Proof.
  assert (Hp : Permutation [(1, 5); (2, 7); (4, 11)]
                 [(4, 11); (1, 5); (2, 7)]).
  { apply Permutation_sym.
    change [(4, 11); (1, 5); (2, 7)] with ([(4, 11)] ++ [(1, 5); (2, 7)]).
    change [(1, 5); (2, 7); (4, 11)] with ([(1, 5); (2, 7)] ++ [(4, 11)]).
    apply Permutation_app_comm. }
  assert (Hv : levels_vary (map fst [(1, 5); (2, 7); (4, 11)])).
  { exists 1, 2. simpl. repeat split; auto. lra. }
  split; [exact Hp |]. split; [exact Hv |].
  exact (intercept_ignores_point_order no_lstsq _ _ Hp Hv).
Defined.


(** ** [get_waveform_data] *)

Lemma mapR_length {A B : Type} (f : A -> result B) (l : list A) :
  forall l', mapR f l = Ok l' -> length l' = length l.
Proof.
  induction l as [| a t IH]; intros l' H; simpl in H.
  - injection H as <-. reflexivity.
  - destruct (f a) as [b | e]; [| discriminate].
    destruct (mapR f t) as [bs | e]; [| discriminate].
    injection H as <-. simpl. f_equal. now apply IH.
Qed.

Lemma mapR_error {A B : Type} (f : A -> result B) (l : list A) (e : exn) :
  mapR f l = Err e -> exists a, In a l /\ f a = Err e.
Proof.
  induction l as [| a t IH]; intros H; simpl in H; [discriminate |].
  destruct (f a) as [b | e'] eqn:Ea.
  - destruct (mapR f t) as [bs | e'']; [discriminate |].
    injection H as ->. destruct (IH eq_refl) as (a' & Hin & Ha').
    exists a'. split; [now right | exact Ha'].
  - injection H as ->. exists a. split; [now left | exact Ea].
Qed.

Lemma mapR_bad_item {A B : Type} (f : A -> result B) (l : list A) (a : A)
    (e : exn) :
  (forall x e', f x = Err e' -> e' = e) ->
  In a l -> f a = Err e -> mapR f l = Err e.
Proof.
  intros Honly. induction l as [| x t IH]; intros Hin Ha; [contradiction |].
  simpl. destruct (f x) as [b | e'] eqn:Ex.
  - destruct Hin as [-> | Hin]; [congruence |].
    now rewrite (IH Hin Ha).
  - f_equal. now apply (Honly x).
Qed.

Lemma float_only_value_error (s : string) (e : exn) :
  Py.float s = Err e -> e = ValueError.
Proof.
  unfold Py.float. destruct (Py.float_parts s) as [[m x] |]; congruence.
Qed.

Lemma split_comma_acc_length (s : string) :
  forall cur, length (Py.split_comma_acc cur s) = S (count_commas s).
Proof.
  induction s as [| c t IH]; intros cur; [reflexivity |].
  cbn [Py.split_comma_acc count_commas].
  destruct (Ascii.eqb c ","%char); [simpl; f_equal |]; apply IH.
Qed.

Lemma split_comma_acc_trailing (s : string) :
  forall cur,
    Py.split_comma_acc cur (s ++ ",")%string
    = Py.split_comma_acc cur s ++ [EmptyString].
Proof.
  induction s as [| c t IH]; intros cur; [reflexivity |].
  cbn [String.append Py.split_comma_acc].
  destruct (Ascii.eqb c ","%char); [simpl; f_equal |]; apply IH.
Qed.

Lemma re_sub_dot_header (h d : string) :
  no_newline h = true ->
  Py.re_sub_dot (String.length h) (h ++ d)%string = d.
Proof.
  induction h as [| c t IH]; intros Hn.
  - cbn. destruct d; reflexivity.
  - cbn [no_newline] in Hn. apply andb_prop in Hn as [Hc Ht].
    cbn [String.length String.append Py.re_sub_dot].
    destruct (Ascii.eqb c "010"%char); [discriminate Hc |]. now apply IH.
Qed.

Lemma re_sub_dot_short (s : string) :
  forall n, (String.length s <= n)%nat -> blank (Py.re_sub_dot n s) = true.
Proof.
  induction s as [| c t IH]; intros n Hn.
  - destruct n; reflexivity.
  - cbn [String.length] in Hn. destruct n as [| m]; [lia |].
    cbn [Py.re_sub_dot]. destruct (Ascii.eqb c "010"%char) eqn:Ec.
    + cbn [blank]. apply Ascii.eqb_eq in Ec. subst c.
      rewrite (IH (S m)) by lia. reflexivity.
    + apply IH. lia.
Qed.

Lemma blank_no_comma (s : string) :
  blank s = true -> forall cur, Py.split_comma_acc cur s = [(cur ++ s)%string].
Proof.
  induction s as [| c t IH]; intros Hb cur.
  - cbn. f_equal. induction cur as [| a u IHu]; [reflexivity |].
    cbn. now rewrite <- IHu.
  - cbn [blank] in Hb. apply andb_prop in Hb as [Hc Ht].
    cbn [Py.split_comma_acc].
    destruct (Ascii.eqb c ","%char) eqn:Ec.
    + apply Ascii.eqb_eq in Ec. subst c. discriminate Hc.
    + rewrite (IH Ht). f_equal.
      induction cur as [| a u IHu]; [reflexivity |].
      cbn. now rewrite IHu.
Qed.

Lemma rstrip_blank (s : string) : blank s = true -> Py.rstrip s = EmptyString.
Proof.
  induction s as [| c t IH]; intros Hb; [reflexivity |].
  cbn [blank] in Hb. apply andb_prop in Hb as [Hc Ht].
  cbn [Py.rstrip]. rewrite (IH Ht), Hc. reflexivity.
Qed.

Lemma float_blank (s : string) : blank s = true -> Py.float s = Err ValueError.
Proof.
  intros Hb. unfold Py.float, Py.float_parts, Py.strip.
  rewrite (rstrip_blank s Hb). reflexivity.
Qed.

Ltac unfold_capture :=
  unfold Oscilloscope.get_waveform_data, Oscilloscope.waveform_data,
    Oscilloscope.stop, Oscilloscope.set_source_channel,
    Oscilloscope.set_wav_mode, Oscilloscope.set_wav_format,
    Oscilloscope.set_wav_start, Oscilloscope.set_wav_stop,
    Oscilloscope.write, Oscilloscope.query, bind, lift;
  cbv beta iota zeta.

Lemma received_all_sent (ms : list osc_msg) :
  forall w, osc_sent (received_all ms w) = osc_sent w ++ ms.
Proof.
  unfold received_all. induction ms as [| m t IH]; intros w.
  - cbn. now rewrite app_nil_r.
  - cbn [fold_left]. rewrite IH. cbn [Oscilloscope.received osc_sent].
    now rewrite <- app_assoc.
Qed.

Lemma received_all_keeps (ms : list osc_msg) :
  forall w,
    osc_replies (received_all ms w) = osc_replies w /\
    stdout (received_all ms w) = stdout w /\
    sg_state (received_all ms w) = sg_state w.
Proof.
  unfold received_all. induction ms as [| m t IH]; intros w.
  - cbn. repeat split.
  - cbn [fold_left]. destruct (IH (Oscilloscope.received m w)) as (H1 & H2 & H3).
    rewrite H1, H2, H3. repeat split.
Qed.

(** [get_waveform_data], reply by reply. *)
Lemma get_waveform_data_cases (channel : nat) (w : world) :
  let w1 := Oscilloscope.answered (received_all (capture_request channel) w) in
  let w2 := Oscilloscope.answered (Oscilloscope.received (Query OPC) w1) in
  Oscilloscope.get_waveform_data channel w
  = match osc_replies w with
    | Some raw :: Some opc :: _ => (Oscilloscope.parse_waveform raw, w2)
    | Some raw :: _ => (Err VisaIOError, w2)
    | _ => (Err VisaIOError, w1)
    end.
Proof.
  intros w1 w2. unfold_capture. autorewrite with world.
  subst w2 w1. cbn [received_all fold_left capture_request].
  destruct (osc_replies w) as [| [raw |] rest] eqn:Er;
    cbv beta iota zeta; try reflexivity.
  autorewrite with world. rewrite Er. cbn [tl].
  destruct rest as [| [opc |] rest']; reflexivity.
Qed.

(** X11.  [get_waveform_data] always stops the acquisition and sends the
    same seven messages, the last being the data query.  Without a reply to
    it, VisaIOError is raised and [*OPC?] is never sent.  With data but no
    reply to [*OPC?], VisaIOError is raised and the data is lost.  With both
    replies the outcome is the conversion of the data, exception or not,
    whatever [*OPC?] answered.  The generator and the console are never
    touched. *)
Theorem capture_outcomes (channel : nat) (w : world) :
  let w1 := Oscilloscope.answered (received_all (capture_request channel) w) in
  let w2 := Oscilloscope.answered (Oscilloscope.received (Query OPC) w1) in
  Oscilloscope.get_waveform_data channel w
  = match osc_replies w with
    | Some raw :: Some opc :: _ => (Oscilloscope.parse_waveform raw, w2)
    | Some raw :: _ => (Err VisaIOError, w2)
    | _ => (Err VisaIOError, w1)
    end /\
  osc_sent w1 = osc_sent w ++ capture_request channel /\
  osc_sent w2 = osc_sent w ++ capture_request channel ++ [Query OPC] /\
  osc_replies w1 = tl (osc_replies w) /\
  osc_replies w2 = tl (tl (osc_replies w)) /\
  sg_state w2 = sg_state w /\ sg_state w1 = sg_state w /\
  stdout w2 = stdout w /\ stdout w1 = stdout w.
Proof.
  intros w1 w2.
  destruct (received_all_keeps (capture_request channel) w) as (Hr & Ho & Hg).
  split.
  - unfold_capture. autorewrite with world.
    subst w2 w1. cbn [received_all fold_left capture_request].
    destruct (osc_replies w) as [| [raw |] rest] eqn:Er;
      cbv beta iota zeta; try reflexivity.
    autorewrite with world. rewrite Er. cbn [tl].
    destruct rest as [| [opc |] rest']; reflexivity.
  - subst w2 w1. unfold sg_state in *.
    cbn [Oscilloscope.answered Oscilloscope.received osc_sent osc_replies
         sg_sent sg_output1 sg_output2 stdout].
    rewrite received_all_sent, Hr, Ho, <- app_assoc.
    repeat split; congruence.
Qed.

(** X10.  A waveform returned by [get_waveform_data] has one sample more
    than there are commas after the 11 header characters of the reply: it is
    never empty, and both replies have been consumed. *)
Theorem captured_waveform_length
    (channel : nat) (w w' : world) (wf : list R) :
  Oscilloscope.get_waveform_data channel w = (Ok wf, w') ->
  exists raw opc rest,
    osc_replies w = Some raw :: Some opc :: rest /\
    osc_replies w' = rest /\
    Oscilloscope.parse_waveform raw = Ok wf /\
    length wf = S (count_commas (Py.re_sub_dot 11 raw)) /\
    wf <> [].
Proof.
  intros H. pose proof (get_waveform_data_cases channel w) as E.
  assert (Hr2 : osc_replies
                  (Oscilloscope.answered
                     (Oscilloscope.received (Query OPC)
                        (Oscilloscope.answered
                           (received_all (capture_request channel) w))))
                = tl (tl (osc_replies w))) by reflexivity.
  cbv zeta in E. rewrite E in H.
  destruct (osc_replies w) as [| [raw |] [| [opc |] rest]] eqn:Er;
    try discriminate H.
  injection H as Hp Hw. exists raw, opc, rest.
  split; [reflexivity |]. split; [subst w'; exact Hr2 |].
  split; [exact Hp |].
  assert (Hlen : length wf = S (count_commas (Py.re_sub_dot 11 raw))).
  { unfold Oscilloscope.parse_waveform in Hp. apply mapR_length in Hp.
    rewrite Hp. apply split_comma_acc_length. }
  split; [exact Hlen |]. intros ->. discriminate Hlen.
Qed.

Lemma captured_waveform_length_witness :
  exists w',
    Oscilloscope.get_waveform_data 1 two_captures = (Ok [1; 0], w') /\
    length [1%R; 0%R] = S (count_commas (Py.re_sub_dot 11 two_samples)).
Proof.
  pose proof (get_waveform_data_cases 1 two_captures) as E.
  cbv zeta in E. cbn [two_captures idle osc_replies] in E.
  rewrite two_samples_parse in E.
  eexists. split; [exact E |].
  destruct (captured_waveform_length 1 two_captures _ [1; 0] E)
    as (raw & opc & rest & Hr & _ & _ & Hlen & _).
  cbn [two_captures idle osc_replies] in Hr. injection Hr as <- _ _.
  exact Hlen.
Defined.

Lemma parse_only_value_error (raw : string) (e : exn) :
  Oscilloscope.parse_waveform raw = Err e -> e = ValueError.
Proof.
  unfold Oscilloscope.parse_waveform. intros H.
  apply mapR_error in H as (s & _ & Hs).
  now apply (float_only_value_error s).
Qed.

(** X12.  The first 11 characters of a reply are dropped without being
    looked at: whatever they are (newlines apart), the waveform is the
    conversion of the comma-separated items that follow. *)
Theorem header_is_dropped_unchecked (h d : string) :
  String.length h = 11%nat -> no_newline h = true ->
  Oscilloscope.parse_waveform (h ++ d)
  = mapR Py.float (Py.split_comma d).
Proof.
  intros Hl Hn. unfold Oscilloscope.parse_waveform.
  rewrite <- Hl, (re_sub_dot_header h d Hn). reflexivity.
Qed.

Lemma header_is_dropped_unchecked_witness :
  String.length "not-header" = 10%nat /\
  String.length "HEADER:....)" = 12%nat /\
  String.length "no header!!" = 11%nat /\
  Oscilloscope.parse_waveform ("no header!!" ++ "1,0") = Ok [1; 0].
Proof.
  split; [reflexivity |]. split; [reflexivity |]. split; [reflexivity |].
  rewrite (header_is_dropped_unchecked "no header!!" "1,0" eq_refl eq_refl).
  replace (Py.split_comma "1,0") with ["1"%string; "0"%string]
    by (vm_compute; reflexivity).
  cbn [mapR]. rewrite float_one, float_zero. reflexivity.
Defined.

Lemma float_empty : Py.float EmptyString = Err ValueError.
Proof. apply float_blank. reflexivity. Qed.

(** X13.  Converting a reply can only fail with a ValueError, and it does
    fail for a reply of at most 11 characters (a header with no data), for
    an empty item between two commas, and for a trailing comma. *)
Theorem reply_conversion_errors (raw : string) :
  (forall e, Oscilloscope.parse_waveform raw = Err e -> e = ValueError) /\
  ((String.length raw <= 11)%nat ->
   Oscilloscope.parse_waveform raw = Err ValueError) /\
  (In EmptyString (Py.split_comma (Py.re_sub_dot 11 raw)) ->
   Oscilloscope.parse_waveform raw = Err ValueError) /\
  (forall h d : string,
     raw = (h ++ d ++ ",")%string ->
     String.length h = 11%nat -> no_newline h = true ->
     Oscilloscope.parse_waveform raw = Err ValueError).
Proof.
  assert (Hempty : In EmptyString (Py.split_comma (Py.re_sub_dot 11 raw)) ->
                   Oscilloscope.parse_waveform raw = Err ValueError).
  { intros Hin. unfold Oscilloscope.parse_waveform.
    apply (mapR_bad_item Py.float _ EmptyString);
      [apply float_only_value_error | exact Hin | exact float_empty]. }
  split; [| split; [| split; [exact Hempty |]]].
  - intros e H. unfold Oscilloscope.parse_waveform in H.
    apply mapR_error in H as (s & _ & Hs).
    now apply (float_only_value_error s).
  - intros Hl. unfold Oscilloscope.parse_waveform, Py.split_comma.
    pose proof (re_sub_dot_short raw 11 Hl) as Hb.
    rewrite (blank_no_comma _ Hb). cbn [String.append mapR].
    now rewrite (float_blank _ Hb).
  - intros h d -> Hl Hn. apply Hempty.
    rewrite <- Hl, (re_sub_dot_header h _ Hn).
    unfold Py.split_comma. rewrite split_comma_acc_trailing.
    apply in_or_app. right. now left.
Qed.

Lemma reply_conversion_errors_witness :
  (String.length "#9000000000" <= 11)%nat /\
  Oscilloscope.parse_waveform "#9000000000" = Err ValueError /\
  Oscilloscope.parse_waveform ("#9000000004" ++ "1,0" ++ ",")
  = Err ValueError.
Proof.
  assert (Hl : (String.length "#9000000000" <= 11)%nat) by (simpl; lia).
  split; [exact Hl |]. split.
  - exact (proj1 (proj2 (reply_conversion_errors "#9000000000")) Hl).
  - exact (proj2 (proj2 (proj2 (reply_conversion_errors
             ("#9000000004" ++ "1,0" ++ ","))))
             "#9000000004"%string "1,0"%string eq_refl eq_refl eq_refl).
Defined.

(** ** [measure_iip2]: what a step does *)

(** One step, case by case.  [w1] is the state once the output is enabled
    and the oscilloscope set up and running, [w2] after the data query,
    [w3] after the [*OPC?] query. *)
Lemma sweep_step_cases (f1 f2 rate v : R) (w : world) :
  let w0 := SignalGenerator.react (OUTP 1 true)
              (SignalGenerator.react (APPLy "SIN" f1 v 0) w) in
  let w1 := Oscilloscope.received (Command RUN)
              (printed (OutVoltage v) (received_all (scope_settings f1 v) w0)) in
  let w2 := Oscilloscope.answered (received_all (capture_request 1) w1) in
  let w3 := Oscilloscope.answered (Oscilloscope.received (Query OPC) w2) in
  sweep_step f1 f2 rate v w
  = if Req_dec_T f1 0 then (Err ZeroDivisionError, w0)
    else
      match osc_replies w with
      | Some raw :: Some opc :: _ =>
          match Oscilloscope.parse_waveform raw with
          | Err e => (Err e, w3)
          | Ok wf =>
              match calculate_second_order_product wf f1 f2 rate with
              | Err e => (Err e, w3)
              | Ok p => (Ok p, Oscilloscope.received (Command STOP) w3)
              end
          end
      | Some raw :: _ => (Err VisaIOError, w3)
      | _ => (Err VisaIOError, w2)
      end.
Proof.
  intros w0 w1 w2 w3. subst w3 w2 w1 w0. unfold_step. unfold Py.div.
  destruct (Req_dec_T f1 0) as [Hz | Hnz]; [reflexivity |].
  cbv beta iota zeta. autorewrite with world.
  cbn [received_all fold_left scope_settings capture_request].
  destruct (osc_replies w) as [| [raw |] rest] eqn:Er;
    cbv beta iota zeta; try reflexivity.
  autorewrite with world. rewrite Er. cbn [tl].
  destruct rest as [| [opc |] rest']; reflexivity.
Qed.

(** X14.  The exceptions a step can raise, in the order the code meets
    them: ZeroDivisionError for a zero [freq1] (timebase [2 / freq1]);
    VisaIOError when the data query or [*OPC?] gets no reply; ValueError
    when the reply does not convert; then those of the extractor, a
    ZeroDivisionError for a zero sample rate or a ValueError for a capture
    of a single sample.  Nothing else is raised, and a capture is never
    empty. *)
Theorem step_exceptions (f1 f2 rate v : R) (w w' : world) (e : exn) :
  sweep_step f1 f2 rate v w = (Err e, w') ->
  (f1 = 0 /\ e = ZeroDivisionError) \/
  (f1 <> 0 /\ e = VisaIOError /\
   forall raw opc rest, osc_replies w <> Some raw :: Some opc :: rest) \/
  (f1 <> 0 /\
   exists raw opc rest,
     osc_replies w = Some raw :: Some opc :: rest /\
     ((Oscilloscope.parse_waveform raw = Err ValueError /\ e = ValueError) \/
      (exists wf,
         Oscilloscope.parse_waveform raw = Ok wf /\ wf <> [] /\
         ((rate = 0 /\ e = ZeroDivisionError) \/
          (length wf = 1%nat /\ rate <> 0 /\ e = ValueError))))).
Proof.
  intros H. pose proof (sweep_step_cases f1 f2 rate v w) as E.
  cbv zeta in E. rewrite E in H. clear E.
  destruct (Req_dec_T f1 0) as [Hz | Hnz].
  { left. split; [exact Hz | congruence]. }
  right.
  destruct (osc_replies w) as [| [raw |] [| [opc |] rest]] eqn:Er;
    try (left; split; [exact Hnz |]; split; [congruence | discriminate]).
  right. split; [exact Hnz |]. exists raw, opc, rest. split; [reflexivity |].
  destruct (Oscilloscope.parse_waveform raw) as [wf | e'] eqn:Ep.
  - right. exists wf. split; [reflexivity |].
    assert (Hne : wf <> []).
    { intros ->. unfold Oscilloscope.parse_waveform in Ep.
      apply mapR_length in Ep. unfold Py.split_comma in Ep.
      rewrite split_comma_acc_length in Ep. discriminate Ep. }
    split; [exact Hne |].
    destruct (calculate_second_order_product wf f1 f2 rate) as [p | e'']
      eqn:Ec; [discriminate H |].
    injection H as -> _.
    exact (extractor_error_nonempty _ _ _ _ _ Hne Ec).
  - left. injection H as -> _.
    pose proof (parse_only_value_error raw _ Ep) as ->.
    split; reflexivity.
Qed.

Lemma step_exceptions_witness :
  exists w',
    sweep_step freq1 freq2 fs 1 silent_scope = (Err VisaIOError, w') /\
    freq1 <> 0 /\
    forall raw opc rest, osc_replies silent_scope <> Some raw :: Some opc :: rest.
Proof.
  destruct (sweep_step_timeout freq1 freq2 fs 1 silent_scope
              default_tone_nonzero (or_introl eq_refl)) as (w' & E & _).
  exists w'. split; [exact E |].
  destruct (step_exceptions _ _ _ _ _ _ _ E)
    as [[_ H] | [(Hf & _ & Hr) | (_ & raw & opc & rest & Hr & _)]].
  - discriminate H.
  - split; assumption.
  - discriminate Hr.
Defined.

(** X15.  A zero [freq1] stops the sweep in its first step with a
    ZeroDivisionError (the timebase is [2 / freq1]): the generator has
    already been set to a 0 Hz sine and its output enabled, and it stays
    on; the oscilloscope has received nothing and nothing was printed. *)
Theorem zero_tone_frequency_aborts
    (F : list R -> list np_float -> result (np_float * np_float))
    (start stop : R) (num : Z) (f2 rate : R) (w : world) :
  (1 <= num)%Z ->
  exists w',
    measure_iip2 F start stop num 0 f2 rate w = (Err ZeroDivisionError, w') /\
    sg_sent w' = sg_sent w ++ [APPLy "SIN" 0 (round1 5 start) 0; OUTP 1 true] /\
    output_on w' /\
    osc_sent w' = osc_sent w /\ osc_replies w' = osc_replies w /\
    stdout w' = stdout w.
Proof.
  intros Hnum. rewrite measure_iip2_paths, sweep_levels_ok by lia.
  destruct (Z.to_nat num) as [| n] eqn:En; [lia |].
  cbn [seq map]. rewrite spaced_level_first, sweep_loop_cons.
  pose proof (sweep_step_cases 0 f2 rate (round1 5 start) w) as E.
  cbv zeta in E. rewrite E.
  destruct (Req_dec_T 0 0) as [_ | H]; [| now elim H].
  eexists. split; [reflexivity |].
  cbn [SignalGenerator.react sg_sent osc_sent osc_replies stdout].
  rewrite <- app_assoc. repeat split.
Qed.

Lemma zero_tone_frequency_aborts_witness :
  (1 <= 10)%Z /\
  exists w',
    measure_iip2 no_lstsq 1 2 10 0 freq2 fs two_captures
    = (Err ZeroDivisionError, w') /\
    output_on w' /\ osc_replies w' = osc_replies two_captures.
Proof.
  assert (Hn : (1 <= 10)%Z) by lia. split; [exact Hn |].
  destruct (zero_tone_frequency_aborts no_lstsq 1 2 10 freq2 fs two_captures Hn)
    as (w' & E & _ & Hon & _ & Hr & _).
  exists w'. split; [exact E |]. split; assumption.
Defined.

(** What a completed step leaves behind. *)
Lemma sweep_step_trace (f1 f2 rate v : R) (w w1 : world) (p : np_float) :
  sweep_step f1 f2 rate v w = (Ok p, w1) ->
  sg_sent w1 = sg_sent w ++ step_commands f1 v /\
  osc_sent w1 = osc_sent w ++ step_messages f1 v /\
  osc_replies w1 = skipn 2 (osc_replies w) /\
  stdout w1 = stdout w ++ [OutVoltage v] /\
  sg_output2 w1 = sg_output2 w.
Proof.
  intros H. pose proof (sweep_step_cases f1 f2 rate v w) as E.
  cbv zeta in E. rewrite E in H. clear E.
  destruct (Req_dec_T f1 0); [discriminate H |].
  destruct (osc_replies w) as [| [raw |] [| [opc |] rest]] eqn:Er;
    try discriminate H.
  destruct (Oscilloscope.parse_waveform raw) as [wf | e]; [| discriminate H].
  destruct (calculate_second_order_product wf f1 f2 rate) as [q | e];
    [| discriminate H].
  injection H as _ <-.
  cbn [Oscilloscope.received Oscilloscope.answered printed received_all
       fold_left scope_settings capture_request SignalGenerator.react
       sg_sent osc_sent osc_replies stdout sg_output2 tl skipn step_commands
       step_messages app].
  rewrite Er, <- !app_assoc. cbn [app tl]. repeat split.
Qed.

Lemma skipn_two_more {A : Type} (n : nat) (l : list A) :
  skipn (2 * n) (skipn 2 l) = skipn (2 * S n) l.
Proof.
  rewrite skipn_skipn. f_equal. lia.
Qed.

Lemma sweep_loop_trace (f1 f2 rate : R) (lv : list R) :
  forall (acc ps : list np_float) (w w1 : world),
    sweep_loop f1 f2 rate lv acc w = (Ok ps, w1) ->
    sg_sent w1 = sg_sent w ++ flat_map (step_commands f1) lv /\
    osc_sent w1 = osc_sent w ++ flat_map (step_messages f1) lv /\
    osc_replies w1 = skipn (2 * length lv) (osc_replies w) /\
    stdout w1 = stdout w ++ map OutVoltage lv /\
    sg_output2 w1 = sg_output2 w.
Proof.
  induction lv as [| v t IH]; intros acc ps w w1 H.
  - injection H as _ <-. cbn. rewrite !app_nil_r. repeat split.
  - rewrite sweep_loop_cons in H.
    destruct (sweep_step f1 f2 rate v w) as [[p | e] w0] eqn:Es;
      [| discriminate H].
    destruct (sweep_step_trace _ _ _ _ _ _ _ Es) as (S1 & S2 & S3 & S4 & S5).
    destruct (IH _ _ _ _ H) as (L1 & L2 & L3 & L4 & L5).
    rewrite L1, L2, L3, L4, L5, S1, S2, S3, S4, S5.
    cbn [flat_map map length]. rewrite <- !app_assoc, skipn_two_more.
    repeat split.
Qed.

(** X16.  A sweep that returns has sent the generator two messages per
    level (the sine at that level, output on) and one output-off at the
    end; it has sent the oscilloscope the same fourteen messages per level
    (settings, run, stop, capture, stop), consumed two of its replies per
    level, and printed the levels in order, followed by at most the
    intercept line. *)
Theorem completed_sweep_trace
    (F : list R -> list np_float -> result (np_float * np_float))
    (start stop : R) (num : Z) (f1 f2 rate : R) (w w' : world) (t : pytuple) :
  measure_iip2 F start stop num f1 f2 rate w = (Ok t, w') ->
  exists lv,
    sweep_levels start stop num = Ok lv /\
    sg_sent w' = sg_sent w ++ flat_map (step_commands f1) lv ++ [OUTP 1 false] /\
    osc_sent w' = osc_sent w ++ flat_map (step_messages f1) lv /\
    length (osc_sent w') = (length (osc_sent w) + 14 * length lv)%nat /\
    osc_replies w' = skipn (2 * length lv) (osc_replies w) /\
    exists last_lines,
      stdout w' = stdout w ++ map OutVoltage lv ++ last_lines /\
      (last_lines = [] \/ exists v, last_lines = [OutIIP2 v]).
Proof.
  intros Hrun.
  destruct (measure_iip2_returns _ _ _ _ _ _ _ _ _ _ Hrun)
    as (lv & ps & w1 & Elv & El & _ & Hw).
  destruct (sweep_loop_trace _ _ _ _ _ _ _ _ El) as (L1 & L2 & L3 & L4 & _).
  exists lv. split; [exact Elv |].
  assert (Hcount : length (flat_map (step_messages f1) lv) = (14 * length lv)%nat).
  { clear. induction lv as [| v u IH]; [reflexivity |].
    cbn [flat_map length]. rewrite length_app, IH. cbn [step_messages
      scope_settings capture_request app length]. lia. }
  destruct (1 <? length ps)%nat.
  - destruct Hw as (v & _ & ->).
    cbn [printed SignalGenerator.react sg_sent osc_sent osc_replies stdout].
    rewrite L1, L2, L3, L4, <- !app_assoc.
    split; [reflexivity |]. split; [reflexivity |].
    split; [now rewrite length_app, Hcount |]. split; [reflexivity |].
    exists [OutIIP2 v]. split; [reflexivity | right; now exists v].
  - subst w'.
    cbn [SignalGenerator.react sg_sent osc_sent osc_replies stdout].
    rewrite L1, L2, L3, L4, <- !app_assoc.
    split; [reflexivity |]. split; [reflexivity |].
    split; [now rewrite length_app, Hcount |]. split; [reflexivity |].
    exists []. split; [now rewrite app_nil_r | now left].
Qed.

Lemma completed_sweep_trace_witness :
  exists w',
    measure_iip2 no_lstsq 1 2 2 freq1 freq2 fs two_captures
    = (Ok [PyArray [1; 2]; PyList [Fin 0; Fin 0]], w') /\
    osc_replies w' = skipn (2 * 2) (osc_replies two_captures) /\
    length (osc_sent w') = (length (osc_sent two_captures) + 14 * 2)%nat.
Proof.
  destruct completed_run as (w' & E & _).
  exists w'. split; [exact E |].
  destruct (completed_sweep_trace _ _ _ _ _ _ _ _ _ _ E)
    as (lv & Elv & _ & _ & Hlen & Hr & _).
  rewrite levels_1_2_2 in Elv. injection Elv as <-.
  split; [exact Hr | exact Hlen].
Defined.

Lemma sweep_loop_started (f1 f2 rate : R) (lv : list R) :
  forall (acc : list np_float) (w : world),
  exists k,
    (k <= length lv)%nat /\
    (forall ps w1, sweep_loop f1 f2 rate lv acc w = (Ok ps, w1) ->
                   k = length lv) /\
    (forall e w1, sweep_loop f1 f2 rate lv acc w = (Err e, w1) ->
                  (1 <= k)%nat) /\
    sg_sent (snd (sweep_loop f1 f2 rate lv acc w))
    = sg_sent w ++ flat_map (step_commands f1) (firstn k lv) /\
    sg_output2 (snd (sweep_loop f1 f2 rate lv acc w)) = sg_output2 w.
Proof.
  induction lv as [| v t IH]; intros acc w.
  - exists 0%nat. cbn. rewrite app_nil_r.
    repeat split; auto. intros e w1 H. discriminate H.
  - rewrite sweep_loop_cons.
    pose proof (sweep_step_generator f1 f2 rate v w) as Hg. unfold sg_state in Hg.
    destruct (sweep_step f1 f2 rate v w) as [[p | e] w0]; cbn [snd] in Hg;
      injection Hg as Hs _ H2.
    + destruct (IH (acc ++ [p]) w0) as (k & Hk & Hall & _ & Hsent & Hout).
      exists (S k). split; [simpl; lia |]. split.
      { intros ps w1 H. simpl. f_equal. eapply Hall. exact H. }
      split; [intros; lia |].
      rewrite Hsent, Hout, Hs, H2. cbn [firstn flat_map step_commands].
      rewrite <- app_assoc. split; reflexivity.
    + exists 1%nat. split; [simpl; lia |]. split; [discriminate |].
      split; [intros; lia |].
      cbn [snd firstn flat_map step_commands app]. rewrite Hs, H2.
      split; reflexivity.
Qed.

(** X17.  On every path, returning or raising, the only messages
    [measure_iip2] sends to the generator are, for each step it started,
    a sine at [freq1] with the step's level and zero offset followed by
    output-on for channel 1, and one output-off for channel 1 exactly when
    all steps completed: it is sent, last, whenever the loop ends normally
    and never when a step raises (then at least one step was started).  The
    second tone [freq2] is never sent to the generator and channel 2 is
    never switched. *)
Theorem generator_only_receives_one_tone
    (F : list R -> list np_float -> result (np_float * np_float))
    (start stop : R) (num : Z) (f1 f2 rate : R) (w : world) :
  let w' := snd (measure_iip2 F start stop num f1 f2 rate w) in
  match sweep_levels start stop num with
  | Err _ => w' = w
  | Ok lv =>
      sg_output2 w' = sg_output2 w /\
      match sweep_loop f1 f2 rate lv [] w with
      | (Ok _, _) =>
          sg_sent w'
          = sg_sent w ++ flat_map (step_commands f1) lv ++ [OUTP 1 false]
      | (Err _, _) =>
          exists k,
            (1 <= k <= length lv)%nat /\
            sg_sent w'
            = sg_sent w ++ flat_map (step_commands f1) (firstn k lv)
      end
  end.
Proof.
  cbv zeta. rewrite measure_iip2_paths.
  destruct (sweep_levels start stop num) as [lv | e]; [| reflexivity].
  destruct (sweep_loop_started f1 f2 rate lv [] w)
    as (k & Hk & _ & Herr & Hs & H2).
  destruct (sweep_loop f1 f2 rate lv [] w) as [[ps | e] w1] eqn:El;
    cbn [snd] in Hs, H2.
  - destruct (sweep_loop_trace _ _ _ _ _ _ _ _ El) as (L1 & _).
    assert (Hoff : sg_sent (SignalGenerator.react (OUTP 1 false) w1)
                   = sg_sent w ++ flat_map (step_commands f1) lv
                       ++ [OUTP 1 false]).
    { cbn [SignalGenerator.react sg_sent]. rewrite L1, <- app_assoc.
      reflexivity. }
    cbv zeta. destruct (1 <? length ps)%nat.
    + destruct (calculate_intercept F lv ps);
        cbn [snd print printed sg_sent sg_output2 SignalGenerator.react];
        (split; [exact H2 | exact Hoff]).
    + cbn [snd]. split; [exact H2 | exact Hoff].
  - cbn [snd]. split; [exact H2 |].
    exists k. split; [| exact Hs].
    split; [exact (Herr e w1 eq_refl) | exact Hk].
Qed.

(** ** [measure_iip2]: products and captures *)

Lemma sweep_step_product (f1 f2 rate v : R) (w w1 : world) (p : np_float) :
  sweep_step f1 f2 rate v w = (Ok p, w1) ->
  exists raw opc rest wf,
    osc_replies w = Some raw :: Some opc :: rest /\
    osc_replies w1 = rest /\
    Oscilloscope.parse_waveform raw = Ok wf /\
    calculate_second_order_product wf f1 f2 rate = Ok p.
Proof.
  intros H. pose proof (sweep_step_trace _ _ _ _ _ _ _ H) as (_ & _ & Hr & _).
  pose proof (sweep_step_cases f1 f2 rate v w) as E.
  cbv zeta in E. rewrite E in H. clear E.
  destruct (Req_dec_T f1 0); [discriminate H |].
  destruct (osc_replies w) as [| [raw |] [| [opc |] rest]] eqn:Er;
    try discriminate H.
  destruct (Oscilloscope.parse_waveform raw) as [wf | e] eqn:Ep;
    [| discriminate H].
  destruct (calculate_second_order_product wf f1 f2 rate) as [q | e] eqn:Ec;
    [| discriminate H].
  injection H as <- _. exists raw, opc, rest, wf.
  split; [reflexivity |]. split; [exact Hr |]. split; [exact Ep | exact Ec].
Qed.

Lemma sweep_loop_products (f1 f2 rate : R) (lv : list R) :
  forall (acc ps : list np_float) (w w1 : world),
    sweep_loop f1 f2 rate lv acc w = (Ok ps, w1) ->
    exists new,
      ps = acc ++ new /\ length new = length lv /\
      forall i, (i < length lv)%nat ->
        exists raw wf,
          nth_error (osc_replies w) (2 * i) = Some (Some raw) /\
          Oscilloscope.parse_waveform raw = Ok wf /\
          calculate_second_order_product wf f1 f2 rate = Ok (nth i new NaN).
Proof.
  induction lv as [| v t IH]; intros acc ps w w1 H.
  - injection H as <- _. exists []. rewrite app_nil_r.
    split; [reflexivity |]. split; [reflexivity |]. intros i Hi. simpl in Hi. lia.
  - rewrite sweep_loop_cons in H.
    destruct (sweep_step f1 f2 rate v w) as [[p | e] w0] eqn:Es;
      [| discriminate H].
    destruct (sweep_step_product _ _ _ _ _ _ _ Es)
      as (raw & opc & rest & wf & Er & Er0 & Ep & Ec).
    destruct (IH _ _ _ _ H) as (new & -> & Hlen & Hall).
    exists (p :: new). split; [now rewrite <- app_assoc |].
    split; [simpl; now rewrite Hlen |].
    intros [| i] Hi.
    + exists raw, wf. rewrite Er. repeat split; assumption.
    + destruct (Hall i ltac:(simpl in Hi; lia)) as (raw' & wf' & Hn & Hp' & Hc').
      exists raw', wf'. split; [| split; assumption].
      rewrite Er. replace (2 * S i)%nat with (S (S (2 * i))) by lia.
      cbn [nth_error]. now rewrite <- Er0.
Qed.

(** X20.  In a sweep that returns, the [i]-th product is the extractor's
    reading of exactly the waveform captured for the [i]-th level, the
    reply of rank [2 i] of the oscilloscope: waveforms are never mixed
    across steps, products come in sweep order, and a product does not
    depend on its level. *)
Theorem products_follow_captures
    (F : list R -> list np_float -> result (np_float * np_float))
    (start stop : R) (num : Z) (f1 f2 rate : R) (w w' : world)
    (lv : list R) (ps : list np_float) :
  measure_iip2 F start stop num f1 f2 rate w
  = (Ok [PyArray lv; PyList ps], w') ->
  length ps = length lv /\
  forall i, (i < length lv)%nat ->
    exists raw wf,
      nth_error (osc_replies w) (2 * i) = Some (Some raw) /\
      Oscilloscope.parse_waveform raw = Ok wf /\
      calculate_second_order_product wf f1 f2 rate = Ok (nth i ps NaN).
Proof.
  intros Hrun.
  destruct (measure_iip2_returns _ _ _ _ _ _ _ _ _ _ Hrun)
    as (lv' & ps' & w1 & _ & El & Ht & _).
  injection Ht as <- <-.
  destruct (sweep_loop_products _ _ _ _ _ _ _ _ El) as (new & -> & Hlen & Hall).
  cbn [app]. split; [exact Hlen | exact Hall].
Qed.

Lemma products_follow_captures_witness :
  exists w',
    measure_iip2 no_lstsq 1 2 2 freq1 freq2 fs two_captures
    = (Ok [PyArray [1; 2]; PyList [Fin 0; Fin 0]], w') /\
    exists raw wf,
      nth_error (osc_replies two_captures) (2 * 1) = Some (Some raw) /\
      Oscilloscope.parse_waveform raw = Ok wf /\
      calculate_second_order_product wf freq1 freq2 fs
      = Ok (nth 1 [Fin 0; Fin 0] NaN).
Proof.
  destruct completed_run as (w' & E & _).
  exists w'. split; [exact E |].
  exact (proj2 (products_follow_captures _ _ _ _ _ _ _ _ _ _ _ E) 1%nat
           ltac:(simpl; lia)).
Defined.

(** ** Channel arguments *)

(** X19.  [enable_output], [disable_output] and [set_channel_scale] ignore
    a channel other than 1 or 2 in silence: no message, no exception.  For
    channel 1 or 2, enabling then disabling sends the two messages for that
    channel, leaves it off and leaves the other channel as it was. *)
Theorem channel_arguments (channel : nat) (scale : R) (w : world) :
  (channel <> 1%nat -> channel <> 2%nat ->
   SignalGenerator.enable_output channel w = (Ok tt, w) /\
   SignalGenerator.disable_output channel w = (Ok tt, w) /\
   Oscilloscope.set_channel_scale channel scale w = (Ok tt, w)) /\
  (channel = 1%nat \/ channel = 2%nat ->
   exists w',
     (SignalGenerator.enable_output channel ;;
      SignalGenerator.disable_output channel)%monad w = (Ok tt, w') /\
     sg_sent w' = sg_sent w ++ [OUTP channel true; OUTP channel false] /\
     sg_output channel w' = false /\
     sg_output (other_channel channel) w'
     = sg_output (other_channel channel) w).
Proof.
  split.
  - intros H1 H2.
    unfold SignalGenerator.enable_output, SignalGenerator.disable_output,
      Oscilloscope.set_channel_scale.
    destruct (Nat.eqb_spec channel 1); [contradiction |].
    destruct (Nat.eqb_spec channel 2); [contradiction |].
    repeat split.
  - intros [-> | ->]; eexists; (split; [reflexivity |]);
      cbn [SignalGenerator.react sg_sent sg_output other_channel Nat.eqb
           sg_output1 sg_output2];
      rewrite <- app_assoc; repeat split.
Qed.

Lemma channel_arguments_witness :
  3%nat <> 1%nat /\ 3%nat <> 2%nat /\
  SignalGenerator.enable_output 3 silent_scope = (Ok tt, silent_scope) /\
  exists w',
    (SignalGenerator.enable_output 2 ;;
     SignalGenerator.disable_output 2)%monad silent_scope = (Ok tt, w') /\
    sg_output 2 w' = false.
Proof.
  assert (H1 : 3%nat <> 1%nat) by discriminate.
  assert (H2 : 3%nat <> 2%nat) by discriminate.
  split; [exact H1 |]. split; [exact H2 |].
  destruct (channel_arguments 3 0 silent_scope) as [Hbad _].
  destruct (channel_arguments 2 0 silent_scope) as [_ Hgood].
  split; [exact (proj1 (Hbad H1 H2)) |].
  destruct (Hgood (or_intror eq_refl)) as (w' & E & _ & Hoff & _).
  exists w'. split; [exact E | exact Hoff].
Defined.
